(** * srconfig: scripts/generate_keenetic_dns_routes.py

    A shallow embedding of the rule-list converter and the properties of its
    five parts: the line classifier [parse_line], the normaliser [normalize],
    the keyword expander [expand_keyword], the aggregating loop of [main] and
    the writer [write_list].

    Text is modelled by [string]: a sequence of characters whose code points
    lie below 256, each held in an [ascii].  On that range Python's
    [str.strip], [str.lower] and [str.splitlines] are character-wise and are
    written out below.  Reads and writes are assumed to succeed (the script
    lets an I/O error propagate as an uncaught exception). *)

From Stdlib Require Import Ascii NArith.
From stdpp Require Import base decidable list strings gmap sorting.

Local Open Scope N_scope.

(** ** Characters *)

(** [str.isspace] on code points below 256: TAB..CR, FS..US, SPACE, NEL and
    NBSP.  These are the characters [str.strip()] removes. *)
Definition is_space (c : ascii) : bool :=
  let n := N_of_ascii c in
  ((9 <=? n) && (n <=? 13)) || ((28 <=? n) && (n <=? 32))
  || (n =? 133) || (n =? 160).

(** [str.lower] on one code point below 256: A..Z and the Latin-1 capitals
    (U+00C0..U+00DE without the multiplication sign U+00D7) move up by 32. *)
Definition lower_char (c : ascii) : ascii :=
  let n := N_of_ascii c in
  if ((65 <=? n) && (n <=? 90))
     || ((192 <=? n) && (n <=? 222) && negb (n =? 215))
  then ascii_of_N (n + 32) else c.

(** Line boundaries of [str.splitlines] below 256 (CR LF is handled by
    [splitlines] itself). *)
Definition is_linebreak (c : ascii) : bool :=
  let n := N_of_ascii c in
  ((10 <=? n) && (n <=? 13)) || ((28 <=? n) && (n <=? 30)) || (n =? 133).

Local Close Scope N_scope.

(** ** String primitives *)

Definition is_empty (s : string) : bool :=
  match s with "" => true | String _ _ => false end.

Fixpoint lstrip (s : string) : string :=
  match s with
  | "" => ""
  | String c r => if is_space c then lstrip r else s
  end.

Fixpoint rstrip (s : string) : string :=
  match s with
  | "" => ""
  | String c r =>
      match rstrip r with
      | "" => if is_space c then "" else String c ""
      | r' => String c r'
      end
  end.

(** [s.strip()] *)
Definition strip (s : string) : string := rstrip (lstrip s).

(** [s.lower()] *)
Fixpoint lower (s : string) : string :=
  match s with
  | "" => ""
  | String c r => String (lower_char c) (lower r)
  end.

(** [s.startswith(p)] *)
Fixpoint startswith (p s : string) : bool :=
  match p, s with
  | "", _ => true
  | String a p', String b s' => bool_decide (a = b) && startswith p' s'
  | String _ _, "" => false
  end.

(** The last character, if any. *)
Fixpoint last_char (s : string) : option ascii :=
  match s with
  | "" => None
  | String a "" => Some a
  | String _ r => last_char r
  end.

(** [s.endswith(c)] for a one-character suffix [c] *)
Definition endswith_char (c : ascii) (s : string) : bool :=
  bool_decide (last_char s = Some c).

(** [s[:-1]] *)
Fixpoint drop_last (s : string) : string :=
  match s with
  | "" => ""
  | String _ "" => ""
  | String a r => String a (drop_last r)
  end.

(** [c in s] for a one-character needle [c] *)
Fixpoint contains_char (c : ascii) (s : string) : bool :=
  match s with
  | "" => false
  | String a r => bool_decide (a = c) || contains_char c r
  end.

(** [s.split(c, 1)] where [c in s]: the text before the first [c] and the
    text after it.  (Without a [c] Python returns the one-element list [[s]];
    the script only splits under the guard [c in s].) *)
Fixpoint split_first (c : ascii) (s : string) : string * string :=
  match s with
  | "" => ("", "")
  | String a r =>
      if bool_decide (a = c) then ("", r)
      else let '(pre, post) := split_first c r in (String a pre, post)
  end.

(** [s.split(c)]: every piece between occurrences of [c]; never empty. *)
Fixpoint split_all (c : ascii) (s : string) : list string :=
  match s with
  | "" => [""]
  | String a r =>
      if bool_decide (a = c) then "" :: split_all c r
      else match split_all c r with
           | [] => [String a ""]
           | p :: ps => String a p :: ps
           end
  end.

(** [sep.join(items)] *)
Fixpoint join (sep : string) (items : list string) : string :=
  match items with
  | [] => ""
  | [x] => x
  | x :: rest => x +:+ sep +:+ join sep rest
  end.

(** [s.splitlines()] *)
Fixpoint splitlines (s : string) : list string :=
  match s with
  | "" => []
  | String c r =>
      if is_linebreak c then
        "" :: match c, r with
              | "013"%char, String "010"%char r' => splitlines r'
              | _, _ => splitlines r
              end
      else match splitlines r with
           | [] => [String c ""]
           | l :: ls => String c l :: ls
           end
  end.

(** ** The script *)

Definition SUPPORTED_PREFIXES : gset string :=
  {[ "DOMAIN"; "DOMAIN-SUFFIX"; "DOMAIN-KEYWORD" ]}.

Definition DEFAULT_KEYWORD_TLDS : list string :=
  [ "com"; "net"; "org"; "ru"; "de"; "nl"; "uk"; "co"; "io"; "info"; "biz";
    "app"; "dev"; "me"; "tv"; "eu"; "us"; "ca"; "fr"; "es"; "it"; "pl"; "cz";
    "tr"; "ua"; "by"; "kz"; "cn"; "jp"; "kr"; "in"; "br"; "au"; "sg" ].

(** The first component of the pair [parse_line] returns. *)
Inductive kind := Kdomain | Kkeyword | Kunknown | Kraw.

Global Instance kind_eq_dec : EqDecision kind.
Proof. solve_decision. Defined.

(** [parse_line]; Python's [None] is [None]. *)
Definition parse_line (raw_line : string) : option (kind * string) :=
  let line := strip raw_line in
  if is_empty line || startswith "#" line || startswith "//" line then None
  else if contains_char "," line then
    let '(prefix, value) := split_first "," line in
    let prefix := strip prefix in
    let value := strip value in
    if bool_decide (prefix = "DOMAIN") || bool_decide (prefix = "DOMAIN-SUFFIX")
    then Some (Kdomain, value)
    else if bool_decide (prefix = "DOMAIN-KEYWORD") then Some (Kkeyword, value)
    else if bool_decide (prefix ∈ SUPPORTED_PREFIXES) then Some (Kunknown, line)
    else Some (Kraw, line)
  else Some (Kdomain, line).

Definition normalize (value : string) : string :=
  let v := lower (strip value) in
  if endswith_char "." v then drop_last v else v.

Definition expand_keyword (keyword : string) (tlds : list string) : list string :=
  let normalized := normalize keyword in
  if is_empty normalized then []
  else if contains_char "." normalized then [normalized]
  else (λ tld, normalized +:+ "." +:+ tld) <$> tlds.

(** The comprehension of [main] that parses [--keyword-tlds]:
    [[t.strip().lower() for t in s.split(",") if t.strip()]] *)
Definition parse_keyword_tlds (s : string) : list string :=
  (λ t, lower (strip t)) <$> filter (λ t, strip t ≠ "") (split_all "," s).

(** The four accumulators of [main]: two lists in insertion order, each with
    the set that answers its membership tests. *)
Record state := State {
  domains : list string;
  seen : gset string;
  unsupported : list string;
  unsupported_seen : gset string
}.

Definition initial_state : state := State [] ∅ [] ∅.

(** [if d and d not in seen: seen.add(d); domains.append(d)] *)
Definition add_domain (st : state) (d : string) : state :=
  if negb (is_empty d) && bool_decide (d ∉ seen st)
  then State (domains st ++ [d]) ({[ d ]} ∪ seen st)
             (unsupported st) (unsupported_seen st)
  else st.

(** [if d and d not in unsupported_seen: unsupported_seen.add(d);
    unsupported.append(d)] *)
Definition add_unsupported (st : state) (d : string) : state :=
  if negb (is_empty d) && bool_decide (d ∉ unsupported_seen st)
  then State (domains st) (seen st)
             (unsupported st ++ [d]) ({[ d ]} ∪ unsupported_seen st)
  else st.

(** The body of the inner loop of [main]. *)
Definition process_line (keyword_tlds : list string) (st : state)
    (raw_line : string) : state :=
  match parse_line raw_line with
  | None => st
  | Some (Kdomain, value) => add_domain st (normalize value)
  | Some (Kkeyword, value) =>
      foldl add_domain st (expand_keyword value keyword_tlds)
  | Some (Kunknown, value) | Some (Kraw, value) =>
      add_unsupported st (normalize value)
  end.

(** The two nested loops of [main], over the lines of every file. *)
Definition aggregate (keyword_tlds : list string) (files : list (list string))
    : state :=
  foldl (foldl (process_line keyword_tlds)) initial_state files.

(** ** Effects *)

(** What the script prints on the error stream (the wording is left out). *)
Inductive message :=
  | InputDirNotFound (dir : string)
  | NoListFiles (dir : string)
  | FoundUnsupported (count : nat) (file : string).

(** What the script does to the outside, in order. *)
Inductive event :=
  | MkdirParents (path : string)
  | WriteText (path content : string)
  | PrintErr (m : message).

Definition newline : string := String "010"%char "".

(** [write_list]: the events it performs. *)
Definition write_list (path : option string) (items : list string)
    : list event :=
  match path with
  | None => []
  | Some p =>
      let content := join newline items in
      let content := if is_empty content then content
                     else content +:+ newline in
      [MkdirParents p; WriteText p content]
  end.

(** The command line after [parse_args]. *)
Record Args := {
  input_dir : string;
  output_file : string;
  unsupported_file : string;
  strict : bool;
  keyword_tlds : string
}.

(** What [main] reads of the file system: [Path.exists], the paths
    [Path.glob("*.list")] yields for a directory, and [Path.read_text].
    A path is the string it was built from. *)
Record FileSystem := {
  path_exists : string → bool;
  glob_list : string → list string;
  read_text : string → string
}.

(** [sorted]: insertion into a list ordered by code points. *)
Fixpoint insert_sorted (x : string) (l : list string) : list string :=
  match l with
  | [] => [x]
  | y :: r => if String.leb x y then x :: l else y :: insert_sorted x r
  end.

Definition sorted (l : list string) : list string :=
  foldr insert_sorted [] l.

(** [main]: the exit code and the events, in order. *)
Definition main (args : Args) (fs : FileSystem) : Z * list event :=
  let dir := input_dir args in
  if negb (path_exists fs dir) then (2%Z, [PrintErr (InputDirNotFound dir)])
  else
    let list_files := sorted (glob_list fs dir) in
    if bool_decide (list_files = []) then (2%Z, [PrintErr (NoListFiles dir)])
    else
      let tlds := parse_keyword_tlds (keyword_tlds args) in
      let st := aggregate tlds ((λ p, splitlines (read_text fs p)) <$> list_files) in
      let w1 := write_list (Some (output_file args)) (domains st) in
      let unsupported_path :=
        if is_empty (unsupported_file args) then None
        else Some (unsupported_file args) in
      let w2 := write_list unsupported_path (unsupported st) in
      if negb (bool_decide (unsupported st = [])) && strict args
      then (1%Z, w1 ++ w2 ++
                 [PrintErr (FoundUnsupported (length (unsupported st))
                                             (unsupported_file args))])
      else (0%Z, w1 ++ w2).

(** ** Vocabulary of the properties *)

(** The last character is a whitespace character. *)
Definition ends_with_space (s : string) : bool :=
  match last_char s with Some c => is_space c | None => false end.

(** The first character is a whitespace character. *)
Definition starts_with_space (s : string) : bool :=
  match s with String c _ => is_space c | "" => false end.

(** The normaliser in the words of its contract: lower-case, trim, and take
    one final dot away if there is one. *)
Definition normalize_contract (D : string) : string :=
  let t := strip (lower D) in
  match last_char t with
  | Some "."%char => drop_last t
  | _ => t
  end.

(** The lines [parse_line] skips. *)
Definition is_skipped (line : string) : bool :=
  is_empty line || startswith "#" line || startswith "//" line.

(** A list with its duplicates removed, every element staying where it
    first occurred. *)
Fixpoint first_occurrences (l : list string) : list string :=
  match l with
  | [] => []
  | x :: r => x :: filter (λ y, y ≠ x) (first_occurrences r)
  end.

(** What one line offers to the domains output, in order: the normalised
    value of a literal entry, or the expansion of a keyword entry. *)
Definition domain_candidates (tlds : list string) (raw_line : string)
    : list string :=
  match parse_line raw_line with
  | Some (Kdomain, value) => [normalize value]
  | Some (Kkeyword, value) => expand_keyword value tlds
  | _ => []
  end.

(** What one line offers to the unsupported output. *)
Definition unsupported_candidates (raw_line : string) : list string :=
  match parse_line raw_line with
  | Some (Kunknown, value) | Some (Kraw, value) => [normalize value]
  | _ => []
  end.

(** One accumulator together with its membership set, and the step the
    script performs on either pair. *)
Definition push (acc : list string * gset string) (d : string)
    : list string * gset string :=
  if negb (is_empty d) && bool_decide (d ∉ acc.2)
  then (acc.1 ++ [d], {[ d ]} ∪ acc.2)
  else acc.

(** The pair [domains], [seen] of a state. *)
Definition domain_part (st : state) : list string * gset string :=
  (domains st, seen st).

(** The pair [unsupported], [unsupported_seen] of a state. *)
Definition unsupported_part (st : state) : list string * gset string :=
  (unsupported st, unsupported_seen st).

(** The set mirrors the list. *)
Definition mirrors (acc : list string * gset string) : Prop :=
  ∀ x, x ∈ acc.2 ↔ x ∈ acc.1.

(** The lines of the input file of scenario A. *)
Definition scenario_lines : list string :=
  [ "example.com"; "DOMAIN-SUFFIX,EXAMPLE.ORG."; "DOMAIN-KEYWORD,test";
    "DOMAIN-MATCH,foo.com"; "# comment" ].

(** A directory [litsts] holding the one file [litsts/a.list]. *)
Definition scenario_fs : FileSystem := {|
  path_exists p := bool_decide (p = "litsts");
  glob_list p := if bool_decide (p = "litsts") then ["litsts/a.list"] else [];
  read_text p :=
    if bool_decide (p = "litsts/a.list")
    then join newline scenario_lines +:+ newline else ""
|}.

(** The command line of scenario A. *)
Definition scenario_args : Args := {|
  input_dir := "litsts";
  output_file := "generated/routes.txt";
  unsupported_file := "generated/unsupported.txt";
  strict := false;
  keyword_tlds := "com,net"
|}.

(** [prefix] is one of the supported prefixes up to letter case, and is not
    that prefix itself. *)
Definition case_variant (prefix : string) : Prop :=
  ∃ P, P ∈ SUPPORTED_PREFIXES ∧ lower prefix = lower P ∧ prefix ≠ P.

(** Every character of [s] satisfies [P]. *)
Fixpoint all_chars (P : ascii → bool) (s : string) : bool :=
  match s with
  | "" => true
  | String c r => P c && all_chars P r
  end.

(** A comma or a whitespace character. *)
Definition is_comma_or_space (c : ascii) : bool :=
  is_space c || bool_decide (c = ","%char).

(** The state [main] reaches after its loops. *)
Definition final_state (args : Args) (fs : FileSystem) : state :=
  aggregate (parse_keyword_tlds (keyword_tlds args))
    ((λ p, splitlines (read_text fs p))
       <$> sorted (glob_list fs (input_dir args))).

(** Scenario A again, in strict mode. *)
Definition strict_args : Args := {|
  input_dir := "litsts";
  output_file := "generated/routes.txt";
  unsupported_file := "generated/unsupported.txt";
  strict := true;
  keyword_tlds := "com,net"
|}.

(** Strict mode with the unsupported-entries file switched off (an empty
    [--unsupported-file]). *)
Definition strict_args_no_file : Args := {|
  input_dir := "litsts";
  output_file := "generated/routes.txt";
  unsupported_file := "";
  strict := true;
  keyword_tlds := "com,net"
|}.

(** No character of [s] ends a line for [str.splitlines]. *)
Definition no_linebreak (s : string) : bool :=
  all_chars (λ c, negb (is_linebreak c)) s.

(** What [parse_keyword_tlds] leaves of a piece: a non-empty string in lower
    case, without white space around it and without a comma. *)
Definition clean_tld (t : string) : Prop :=
  t ≠ "" ∧ lower t = t ∧ strip t = t ∧ contains_char "," t = false.

(** Two directories holding the same two files, listed in either order. *)
Definition two_files_fs (listing : list string) : FileSystem := {|
  path_exists p := bool_decide (p = "litsts");
  glob_list p := if bool_decide (p = "litsts") then listing else [];
  read_text p :=
    if bool_decide (p = "litsts/a.list") then "DOMAIN,b.example"
    else "DOMAIN,a.example"
|}.

(** * Properties *)

(** ** Characters *)

Lemma is_space_lower_char c : is_space (lower_char c) = is_space c.
Proof. by destruct c as [[] [] [] [] [] [] [] []]. Qed.

Lemma lower_char_idemp c : lower_char (lower_char c) = lower_char c.
Proof. by destruct c as [[] [] [] [] [] [] [] []]. Qed.

Lemma lower_char_dot c : lower_char c = "."%char ↔ c = "."%char.
Proof. by destruct c as [[] [] [] [] [] [] [] []]. Qed.

(** ** Strings *)

Lemma is_empty_true s : is_empty s = true ↔ s = "".
Proof. by destruct s. Qed.

Lemma is_empty_false s : is_empty s = false ↔ s ≠ "".
Proof. by destruct s. Qed.

Lemma app_String a s t : String a s +:+ t = String a (s +:+ t).
Proof. done. Qed.

Lemma app_empty_l t : "" +:+ t = t.
Proof. done. Qed.

Lemma startswith_spec p s : startswith p s = true ↔ ∃ r, s = p +:+ r.
Proof.
  revert s. induction p as [|a p IH]; intros s; simpl.
  - split; [by exists s | done].
  - destruct s as [|b s].
    + split; [done | by intros [r Hr]].
    + rewrite andb_true_iff, bool_decide_eq_true, IH. split.
      * intros [-> [r ->]]. by exists r.
      * intros [r Hr]. rewrite app_String in Hr. simplify_eq. eauto.
Qed.

Lemma last_char_is_Some a s : is_Some (last_char (String a s)).
Proof.
  revert a. induction s as [|b s IH]; intros a; [by eexists|].
  change (last_char (String a (String b s))) with (last_char (String b s)).
  apply IH.
Qed.

Lemma last_char_cons a s :
  last_char (String a s) = match last_char s with None => Some a | o => o end.
Proof.
  destruct s as [|b s]; [done|].
  change (last_char (String a (String b s))) with (last_char (String b s)).
  by destruct (last_char_is_Some b s) as [c ->].
Qed.

Lemma last_char_None s : last_char s = None ↔ s = "".
Proof.
  destruct s as [|a s]; [done|].
  destruct (last_char_is_Some a s) as [c Hc]. by rewrite Hc.
Qed.

Lemma last_char_snoc s c : last_char (s +:+ String c "") = Some c.
Proof.
  induction s as [|a s IH]; [done|].
  by rewrite app_String, last_char_cons, IH.
Qed.

Lemma drop_last_snoc s c : drop_last (s +:+ String c "") = s.
Proof.
  induction s as [|a s IH]; [done|]. rewrite app_String. simpl.
  rewrite IH. by destruct s.
Qed.

Lemma last_char_Some s c :
  last_char s = Some c ↔ s = drop_last s +:+ String c "".
Proof.
  split.
  - induction s as [|a s IH]; [done|]. rewrite last_char_cons.
    destruct s as [|b s]; [naive_solver|].
    destruct (last_char (String b s)) eqn:E.
    + intros ?; simplify_eq. change (drop_last (String a (String b s)))
        with (String a (drop_last (String b s))).
      rewrite app_String. f_equal. by apply IH.
    + by apply last_char_None in E.
  - intros ->. apply last_char_snoc.
Qed.

Lemma length_drop_last s :
  s ≠ "" → String.length s = S (String.length (drop_last s)).
Proof.
  induction s as [|a s IH]; [done|]. intros _.
  destruct s as [|b s]; [done|].
  change (drop_last (String a (String b s)))
    with (String a (drop_last (String b s))).
  simpl in *. f_equal. by apply IH.
Qed.

(** *** Stripping *)

Lemma rstrip_cons_keep c r :
  is_space c = false → rstrip (String c r) = String c (rstrip r).
Proof. intros Hc. simpl. rewrite Hc. by destruct (rstrip r). Qed.

Lemma lstrip_keep s : starts_with_space s = false → lstrip s = s.
Proof. destruct s as [|c r]; [done|]. simpl. by intros ->. Qed.

Lemma lstrip_no_lead s : starts_with_space (lstrip s) = false.
Proof.
  induction s as [|c r IH]; [done|]. simpl.
  destruct (is_space c) eqn:E; [done|]. simpl. by rewrite E.
Qed.

Lemma rstrip_no_lead s :
  starts_with_space s = false → starts_with_space (rstrip s) = false.
Proof.
  destruct s as [|c r]; [done|]. cbn [starts_with_space]. intros Hc.
  rewrite rstrip_cons_keep by done. done.
Qed.

Lemma rstrip_no_trail s : ends_with_space (rstrip s) = false.
Proof.
  unfold ends_with_space. induction s as [|c r IH]; [done|]. simpl.
  destruct (rstrip r) as [|d r'] eqn:E.
  - destruct (is_space c) eqn:Hc; [done|]. simpl. by rewrite Hc.
  - rewrite last_char_cons. destruct (last_char (String d r')) eqn:E'; [done|].
    by apply last_char_None in E'.
Qed.

Lemma rstrip_fixed s : rstrip s = s ↔ ends_with_space s = false.
Proof.
  split; [intros <-; apply rstrip_no_trail|].
  unfold ends_with_space. induction s as [|c r IH]; [done|].
  rewrite last_char_cons. destruct (last_char r) eqn:E.
  - intros Hs. simpl. rewrite (IH Hs). destruct r; [done|done].
  - apply last_char_None in E as ->. simpl. by intros ->.
Qed.

Lemma length_rstrip s : String.length (rstrip s) ≤ String.length s.
Proof.
  induction s as [|c r IH]; [done|]. simpl.
  destruct (rstrip r); [destruct (is_space c)|]; simpl in *; lia.
Qed.


Lemma strip_no_lead s : starts_with_space (strip s) = false.
Proof. apply rstrip_no_lead, lstrip_no_lead. Qed.

Lemma strip_no_trail s : ends_with_space (strip s) = false.
Proof. apply rstrip_no_trail. Qed.

Lemma strip_fixed s :
  strip s = s ↔ starts_with_space s = false ∧ ends_with_space s = false.
Proof.
  split.
  - intros <-. split; [apply strip_no_lead | apply strip_no_trail].
  - intros [H1 H2]. unfold strip. rewrite lstrip_keep by done.
    by apply rstrip_fixed.
Qed.

Lemma strip_strip s : strip (strip s) = strip s.
Proof. apply strip_fixed. split; [apply strip_no_lead | apply strip_no_trail]. Qed.


Lemma length_rstrip_eq s :
  String.length (rstrip s) = String.length s → rstrip s = s.
Proof.
  induction s as [|c r IH]; [done|]. simpl.
  pose proof (length_rstrip r) as Hle.
  destruct (rstrip r) as [|d r'] eqn:E.
  - destruct (is_space c); simpl in *; [done|].
    destruct r; simpl in *; [done | lia].
  - simpl in *. intros [= Hlen]. f_equal. by apply IH.
Qed.

(** *** Lower-casing *)

Lemma lower_lower s : lower (lower s) = lower s.
Proof. induction s as [|c r IH]; simpl; [done|]. by rewrite lower_char_idemp, IH. Qed.

Lemma length_lower s : String.length (lower s) = String.length s.
Proof. induction s as [|c r IH]; simpl; [done|]. by rewrite IH. Qed.

Lemma lower_empty s : lower s = "" ↔ s = "".
Proof. by destruct s. Qed.

Lemma lower_app s t : lower (s +:+ t) = lower s +:+ lower t.
Proof. induction s as [|c r IH]; [done|]. rewrite app_String. simpl. by rewrite IH. Qed.

Lemma lstrip_lower s : lstrip (lower s) = lower (lstrip s).
Proof.
  induction s as [|c r IH]; [done|]. simpl. rewrite is_space_lower_char.
  by destruct (is_space c).
Qed.

Lemma rstrip_lower s : rstrip (lower s) = lower (rstrip s).
Proof.
  induction s as [|c r IH]; [done|]. simpl. rewrite IH, is_space_lower_char.
  destruct (rstrip r); simpl; [by destruct (is_space c)|done].
Qed.

Lemma strip_lower s : strip (lower s) = lower (strip s).
Proof. unfold strip. by rewrite lstrip_lower, rstrip_lower. Qed.

Lemma last_char_lower s : last_char (lower s) = lower_char <$> last_char s.
Proof.
  induction s as [|c r IH]; [done|].
  change (lower (String c r)) with (String (lower_char c) (lower r)).
  rewrite !last_char_cons, IH. by destruct (last_char r).
Qed.

Lemma drop_last_lower s : drop_last (lower s) = lower (drop_last s).
Proof.
  induction s as [|c r IH]; [done|]. destruct r as [|d r]; [done|].
  change (lower (String c (String d r)))
    with (String (lower_char c) (lower (String d r))).
  change (drop_last (String c (String d r)))
    with (String c (drop_last (String d r))).
  change (lower (String c (drop_last (String d r))))
    with (String (lower_char c) (lower (drop_last (String d r)))).
  rewrite <- IH. done.
Qed.

Lemma starts_with_space_lower s :
  starts_with_space (lower s) = starts_with_space s.
Proof. destruct s; [done|]. apply is_space_lower_char. Qed.

Lemma endswith_dot_lower s :
  endswith_char "." (lower s) = endswith_char "." s.
Proof.
  unfold endswith_char. rewrite last_char_lower. apply bool_decide_ext.
  destruct (last_char s) as [c|]; simpl; [|done].
  split; intros [= H]; f_equal; by apply lower_char_dot.
Qed.

Lemma drop_last_no_lead s :
  starts_with_space s = false → starts_with_space (drop_last s) = false.
Proof. destruct s as [|c [|d r]]; done. Qed.

(** *** The normaliser *)

Lemma lower_normalize s : lower (normalize s) = normalize s.
Proof.
  unfold normalize. destruct (endswith_char _ _).
  - by rewrite <- drop_last_lower, lower_lower.
  - apply lower_lower.
Qed.

Lemma normalize_no_lead s : starts_with_space (normalize s) = false.
Proof.
  assert (starts_with_space (lower (strip s)) = false) as H
    by (rewrite starts_with_space_lower; apply strip_no_lead).
  unfold normalize. destruct (endswith_char _ _); [|done].
  by apply drop_last_no_lead.
Qed.

Lemma length_normalize s :
  String.length (normalize s) ≤ String.length (strip s).
Proof.
  unfold normalize. destruct (endswith_char _ _) eqn:E.
  - destruct (lower (strip s)) as [|c r] eqn:E'; [done|].
    rewrite <- (length_lower (strip s)), E'.
    rewrite (length_drop_last (String c r)) by done. lia.
  - by rewrite length_lower.
Qed.

(** [normalize] leaves a string alone exactly when the string is in lower
    case, has no white space at either end and no final dot. *)
Lemma normalize_fixed s :
  lower s = s → starts_with_space s = false →
  (normalize s = s ↔ endswith_char "." s = false ∧ ends_with_space s = false).
Proof.
  intros Hlow Hlead. split.
  - intros Hn. destruct (ends_with_space s) eqn:Hsp.
    + exfalso. assert (rstrip s ≠ s) as Hne.
      { intros Heq%rstrip_fixed. congruence. }
      pose proof (length_normalize s) as H1. rewrite Hn in H1.
      unfold strip in H1. rewrite lstrip_keep in H1 by done.
      pose proof (length_rstrip s) as H2.
      apply Hne, length_rstrip_eq. lia.
    + split; [|done]. destruct (endswith_char "." s) eqn:Hdot; [|done].
      exfalso. unfold normalize in Hn.
      assert (strip s = s) as Hs by by apply strip_fixed.
      rewrite Hs, Hlow, Hdot in Hn.
      destruct s as [|c r]; [done|].
      pose proof (length_drop_last (String c r)) as Hl.
      rewrite Hn in Hl. specialize (Hl ltac:(done)). lia.
  - intros [Hdot Hsp]. unfold normalize.
    assert (strip s = s) as -> by by apply strip_fixed.
    by rewrite Hlow, Hdot.
Qed.

Lemma normalize_contract_eq D : normalize D = normalize_contract D.
Proof.
  unfold normalize, normalize_contract, endswith_char.
  rewrite strip_lower. case_bool_decide as H.
  - by rewrite H.
  - destruct (last_char _) as [c|]; [|done].
    destruct (decide (c = "."%char)) as [->|]; [done|].
    by destruct c as [[] [] [] [] [] [] [] []].
Qed.

(** C4 (as amended): for every string D, normalize(D) is the lower-cased,
    whitespace-trimmed value of D with exactly one trailing '.' removed if
    present; and normalize(normalize(D)) = normalize(D) holds exactly when
    normalize(D) ends neither with '.' nor with a whitespace character. *)
Theorem normalize_contract_and_fixpoint (D : string) :
  normalize D = normalize_contract D ∧
  (∀ s, strip (lower D) = s +:+ "." → normalize D = s) ∧
  (endswith_char "." (strip (lower D)) = false →
     normalize D = strip (lower D)) ∧
  (normalize (normalize D) = normalize D ↔
     endswith_char "." (normalize D) = false ∧
     ends_with_space (normalize D) = false).
Proof.
  split; [apply normalize_contract_eq|]. split; [|split].
  - intros s Hs. unfold normalize, endswith_char.
    rewrite <- strip_lower, Hs, last_char_snoc.
    rewrite bool_decide_true by done. apply drop_last_snoc.
  - intros H. unfold normalize. by rewrite <- strip_lower, H.
  - apply normalize_fixed; [apply lower_normalize | apply normalize_no_lead].
Qed.

Lemma normalize_contract_and_fixpoint_witness :
  normalize " Example.COM. " = "example.com" ∧
  normalize (normalize " Example.COM. ") = normalize " Example.COM. ".
Proof.
  destruct (normalize_contract_and_fixpoint " Example.COM. ")
    as (_ & Hdot & _ & Hfix).
  split.
  - apply Hdot. vm_compute. reflexivity.
  - apply Hfix. vm_compute. split; reflexivity.
Defined.

(** C4 (as stated) fails: two trailing dots take two rounds to go. *)
Lemma normalize_not_idempotent :
  normalize (normalize "a..") ≠ normalize "a..".
Proof. vm_compute. discriminate. Qed.

(** *** Splitting at the first separator *)

Lemma contains_char_app c s t :
  contains_char c (s +:+ t) = contains_char c s || contains_char c t.
Proof.
  induction s as [|a s IH]; [done|]. rewrite app_String. simpl.
  by rewrite IH, orb_assoc.
Qed.

Lemma split_first_app c pre post :
  contains_char c pre = false →
  split_first c (pre +:+ String c post) = (pre, post).
Proof.
  induction pre as [|a pre IH]; simpl.
  - intros _. rewrite ?app_empty_l. simpl. by rewrite bool_decide_true.
  - intros [Ha Hpre]%orb_false_iff. rewrite ?app_String. simpl.
    rewrite Ha, (IH Hpre). done.
Qed.

Lemma split_first_spec c s :
  contains_char c s = true →
  ∃ pre post, split_first c s = (pre, post) ∧
              s = pre +:+ String c post ∧ contains_char c pre = false.
Proof.
  induction s as [|a s IH]; [done|]. simpl. case_bool_decide as Ha.
  - intros _. subst a. by exists "", s.
  - simpl. intros (pre & post & -> & -> & Hpre)%IH.
    exists (String a pre), post. split_and!; [done..|].
    simpl. by rewrite bool_decide_false.
Qed.

(** ** The line classifier *)

(** C1: with [line] the trimmed input, [parse_line] returns nothing when
    [line] is empty or starts with '#' or '//'; otherwise 'domain' with the
    whole [line] when it has no comma; otherwise, splitting [line] at its
    first comma into a prefix and a value and trimming both, 'domain' with
    the value for the prefixes DOMAIN and DOMAIN-SUFFIX, 'keyword' with the
    value for DOMAIN-KEYWORD, and 'raw' with the whole [line] for every
    other prefix. *)
Theorem parse_line_cases (raw_line : string) :
  let line := strip raw_line in
  (line = "" ∨ startswith "#" line = true ∨ startswith "//" line = true →
     parse_line raw_line = None) ∧
  (is_skipped line = false → contains_char "," line = false →
     parse_line raw_line = Some (Kdomain, line)) ∧
  (is_skipped line = false →
   ∀ pre post, line = pre +:+ "," +:+ post → contains_char "," pre = false →
     (strip pre = "DOMAIN" ∨ strip pre = "DOMAIN-SUFFIX" →
        parse_line raw_line = Some (Kdomain, strip post)) ∧
     (strip pre = "DOMAIN-KEYWORD" →
        parse_line raw_line = Some (Kkeyword, strip post)) ∧
     (strip pre ≠ "DOMAIN" → strip pre ≠ "DOMAIN-SUFFIX" →
      strip pre ≠ "DOMAIN-KEYWORD" →
        parse_line raw_line = Some (Kraw, line))).
Proof.
  intros line. unfold parse_line. fold line. fold (is_skipped line).
  split; [|split].
  - intros H. assert (is_skipped line = true) as ->; [|done].
    unfold is_skipped. destruct H as [->|[->| ->]]; [done|..].
    + by rewrite orb_true_r.
    + by rewrite orb_true_r.
  - by intros -> ->.
  - intros -> pre post Hline Hpre.
    assert (contains_char "," line = true) as ->.
    { rewrite Hline, contains_char_app. simpl. by rewrite orb_true_r. }
    rewrite Hline. change ("," +:+ post) with (String "," post).
    rewrite (split_first_app _ _ _ Hpre). split; [|split].
    + intros [-> | ->]; done.
    + intros ->. done.
    + intros H1 H2 H3.
      assert (strip pre ∉ SUPPORTED_PREFIXES) as H4.
      { unfold SUPPORTED_PREFIXES.
        rewrite !elem_of_union, !elem_of_singleton. tauto. }
      by rewrite !bool_decide_false by done.
Qed.

Lemma parse_line_cases_witness :
  parse_line "  DOMAIN-SUFFIX , Example.org,x  " = Some (Kdomain, "Example.org,x") ∧
  parse_line " DOMAIN-KEYWORD,test" = Some (Kkeyword, "test") ∧
  parse_line "DOMAIN-MATCH, foo.com " = Some (Kraw, "DOMAIN-MATCH, foo.com") ∧
  parse_line " example.com " = Some (Kdomain, "example.com") ∧
  parse_line "  // note, with a comma" = None.
Proof.
  split_and!.
  - pose proof (parse_line_cases "  DOMAIN-SUFFIX , Example.org,x  ") as H.
    cbv zeta in H. destruct H as (_ & _ & H).
    apply (H (eq_refl _) "DOMAIN-SUFFIX " " Example.org,x" (eq_refl _) (eq_refl _)).
    right. reflexivity.
  - pose proof (parse_line_cases " DOMAIN-KEYWORD,test") as H.
    cbv zeta in H. destruct H as (_ & _ & H).
    apply (H (eq_refl _) "DOMAIN-KEYWORD" "test" (eq_refl _) (eq_refl _)).
    reflexivity.
  - pose proof (parse_line_cases "DOMAIN-MATCH, foo.com ") as H.
    cbv zeta in H. destruct H as (_ & _ & H).
    apply (H (eq_refl _) "DOMAIN-MATCH" " foo.com" (eq_refl _) (eq_refl _));
      discriminate.
  - pose proof (parse_line_cases " example.com ") as H.
    cbv zeta in H. destruct H as (_ & H & _).
    apply H; reflexivity.
  - pose proof (parse_line_cases "  // note, with a comma") as H.
    cbv zeta in H. destruct H as (H & _).
    apply H. right; right; reflexivity.
Defined.

(** ** The keyword expander *)

Lemma contains_char_lstrip c s :
  contains_char c (lstrip s) = true → contains_char c s = true.
Proof.
  induction s as [|a s IH]; [done|]. simpl. destruct (is_space a); [|done].
  intros ->%IH. apply orb_true_r.
Qed.

Lemma contains_char_rstrip c s :
  contains_char c (rstrip s) = true → contains_char c s = true.
Proof.
  induction s as [|a s IH]; [done|]. simpl.
  destruct (rstrip s) as [|b r'].
  - destruct (is_space a); simpl; [done|]. rewrite orb_false_r. by intros ->.
  - change (contains_char c (String a (String b r')))
      with (bool_decide (a = c) || contains_char c (String b r')).
    intros [->| ->%IH]%orb_true_iff; [done | apply orb_true_r].
Qed.

Lemma contains_char_drop_last c s :
  contains_char c (drop_last s) = true → contains_char c s = true.
Proof.
  induction s as [|a s IH]; [done|]. destruct s as [|b s]; [done|].
  change (drop_last (String a (String b s)))
    with (String a (drop_last (String b s))).
  change (contains_char c (String a (String b s)))
    with (bool_decide (a = c) || contains_char c (String b s)).
  simpl contains_char at 1.
  intros [->| ->%IH]%orb_true_iff; [done | apply orb_true_r].
Qed.

Lemma contains_dot_lower s :
  contains_char "." (lower s) = contains_char "." s.
Proof.
  induction s as [|a s IH]; [done|]. simpl. rewrite IH. f_equal.
  apply bool_decide_ext, lower_char_dot.
Qed.

(** Normalising brings no dot into a string. *)
Lemma contains_dot_normalize K :
  contains_char "." K = false → contains_char "." (normalize K) = false.
Proof.
  intros HK. apply not_true_iff_false. intros Hn. unfold normalize in Hn.
  assert (contains_char "." (lower (strip K)) = true) as H.
  { destruct (endswith_char _ _); [by apply contains_char_drop_last|done]. }
  rewrite contains_dot_lower in H.
  apply contains_char_rstrip, contains_char_lstrip in H. congruence.
Qed.

(** C5 (as amended): for every keyword K without a '.' whose normalisation
    is not empty, expand(K, TLDs) has as many elements as TLDs, and its i-th
    element is normalize(K) + "." + the i-th TLD. *)
Theorem expand_keyword_plain (K : string) (tlds : list string) :
  contains_char "." K = false → normalize K ≠ "" →
  length (expand_keyword K tlds) = length tlds ∧
  expand_keyword K tlds = (λ tld, normalize K +:+ "." +:+ tld) <$> tlds ∧
  (∀ i tld, tlds !! i = Some tld →
     expand_keyword K tlds !! i = Some (normalize K +:+ "." +:+ tld)).
Proof.
  intros HK Hne. unfold expand_keyword.
  rewrite (proj2 (is_empty_false _) Hne), (contains_dot_normalize K HK).
  split_and!.
  - apply length_fmap.
  - done.
  - intros i tld Hi. by rewrite list_lookup_fmap, Hi.
Qed.

Lemma expand_keyword_plain_witness :
  expand_keyword " Test " ["com"; "net"] = ["test.com"; "test.net"].
Proof.
  destruct (expand_keyword_plain " Test " ["com"; "net"]) as (_ & H & _).
  - reflexivity.
  - vm_compute. discriminate.
  - rewrite H. vm_compute. reflexivity.
Defined.

(** C5 (as stated) fails: the empty keyword has no '.', and expands to
    nothing whatever the TLD list. *)
Lemma expand_keyword_empty_keyword :
  contains_char "." "" = false ∧
  length (expand_keyword "" ["com"; "net"]) ≠ length ["com"; "net"].
Proof. split; [reflexivity | vm_compute; discriminate]. Qed.

(** C6 (as amended): for every keyword K whose normalisation contains a '.',
    expand(K, TLDs) = [normalize(K)], whatever the TLD list. *)
Theorem expand_keyword_qualified (K : string) (tlds : list string) :
  contains_char "." (normalize K) = true →
  expand_keyword K tlds = [normalize K].
Proof.
  intros H. unfold expand_keyword. rewrite H.
  by destruct (normalize K).
Qed.

Lemma expand_keyword_qualified_witness :
  expand_keyword "Example.COM." ["com"; "net"] = ["example.com"].
Proof.
  rewrite (expand_keyword_qualified "Example.COM." ["com"; "net"]).
  - vm_compute. reflexivity.
  - vm_compute. reflexivity.
Defined.

(** C6 (as stated) fails: the only '.' of "a." is the final one, which
    normalisation removes, so the keyword is expanded over the TLDs. *)
Lemma expand_keyword_trailing_dot :
  contains_char "." "a." = true ∧
  expand_keyword "a." ["com"; "net"] ≠ [normalize "a."].
Proof. split; [reflexivity | vm_compute; discriminate]. Qed.

(** ** The aggregator *)

Lemma elem_of_first_occurrences l x : x ∈ first_occurrences l ↔ x ∈ l.
Proof.
  induction l as [|y l IH]; [done|]. simpl.
  rewrite !elem_of_cons, list_elem_of_filter, IH.
  destruct (decide (x = y)); tauto.
Qed.

Lemma NoDup_first_occurrences l : NoDup (first_occurrences l).
Proof.
  induction l as [|y l IH]; simpl; [constructor|]. constructor.
  - rewrite list_elem_of_filter. tauto.
  - by apply NoDup_filter.
Qed.

Lemma filter_not_in_nil (l : list string) : filter (λ d, d ∉ []) l = l.
Proof.
  induction l as [|x l IH]; [done|].
  rewrite filter_cons_True by apply not_elem_of_nil. by rewrite IH.
Qed.

Lemma mirrors_empty : mirrors ([], ∅).
Proof. intros x. cbn. by rewrite elem_of_empty, elem_of_nil. Qed.

Lemma push_skip acc d : d = "" ∨ d ∈ acc.2 → push acc d = acc.
Proof.
  unfold push. intros [-> | Hd]; [done|].
  by rewrite (bool_decide_false (d ∉ acc.2)), andb_false_r by tauto.
Qed.

Lemma push_new acc d :
  d ≠ "" → d ∉ acc.2 → push acc d = (acc.1 ++ [d], {[ d ]} ∪ acc.2).
Proof.
  unfold push. intros Hne Hd.
  by rewrite (proj2 (is_empty_false d) Hne), bool_decide_true.
Qed.

Lemma push_mirrors acc d : mirrors acc → mirrors (push acc d).
Proof.
  intros Hm. unfold push. destruct (_ && _); [|done].
  intros x. cbn [fst snd]. rewrite elem_of_union, elem_of_singleton,
    elem_of_app, list_elem_of_singleton, (Hm x). tauto.
Qed.

(** The loop "append unless empty or seen" keeps the first occurrence of
    every non-empty string that is not in the list yet. *)
Lemma foldl_push ds : ∀ acc, mirrors acc →
  mirrors (foldl push acc ds) ∧
  (foldl push acc ds).1 =
    acc.1 ++ filter (λ d, d ∉ acc.1)
               (first_occurrences (filter (λ d, d ≠ "") ds)).
Proof.
  induction ds as [|d ds IH]; intros acc Hm.
  - split; [done|]. simpl. by rewrite app_nil_r.
  - cbn [foldl].
    destruct (IH (push acc d) (push_mirrors _ d Hm)) as [Hm' ->].
    split; [done|]. destruct (decide (d = "")) as [->|Hne].
    { rewrite push_skip by by left. by rewrite filter_cons_False by tauto. }
    rewrite (filter_cons_True (λ d, d ≠ "")) by done. cbn [first_occurrences].
    destruct (decide (d ∈ acc.1)) as [Hin|Hin].
    + rewrite push_skip by (right; by apply Hm).
      rewrite (filter_cons_False (λ d, d ∉ acc.1)) by tauto.
      rewrite list_filter_filter_l; [done|]. intros x Hx ->. tauto.
    + rewrite push_new by (done || by rewrite (Hm d)). cbn [fst].
      rewrite (filter_cons_True (λ d, d ∉ acc.1)) by done.
      rewrite <- app_assoc. cbn [app]. do 2 f_equal.
      rewrite list_filter_filter. apply list_filter_iff. intros x.
      rewrite elem_of_app, list_elem_of_singleton. tauto.
Qed.

Lemma domain_part_add_domain st d :
  domain_part (add_domain st d) = push (domain_part st) d.
Proof. unfold add_domain, push. cbn. by destruct (_ && _). Qed.

Lemma unsupported_part_add_domain st d :
  unsupported_part (add_domain st d) = unsupported_part st.
Proof. unfold add_domain. by destruct (_ && _). Qed.

Lemma unsupported_part_add_unsupported st d :
  unsupported_part (add_unsupported st d) = push (unsupported_part st) d.
Proof. unfold add_unsupported, push. cbn. by destruct (_ && _). Qed.

Lemma domain_part_add_unsupported st d :
  domain_part (add_unsupported st d) = domain_part st.
Proof. unfold add_unsupported. by destruct (_ && _). Qed.

Lemma domain_part_foldl_add_domain ds : ∀ st,
  domain_part (foldl add_domain st ds) = foldl push (domain_part st) ds.
Proof.
  induction ds as [|d ds IH]; intros st; [done|]. cbn [foldl].
  by rewrite IH, domain_part_add_domain.
Qed.

Lemma unsupported_part_foldl_add_domain ds : ∀ st,
  unsupported_part (foldl add_domain st ds) = unsupported_part st.
Proof.
  induction ds as [|d ds IH]; intros st; [done|]. cbn [foldl].
  by rewrite IH, unsupported_part_add_domain.
Qed.

Lemma domain_part_process_line tlds st raw :
  domain_part (process_line tlds st raw)
  = foldl push (domain_part st) (domain_candidates tlds raw).
Proof.
  unfold process_line, domain_candidates.
  destruct (parse_line raw) as [[[] v]|]; cbn [foldl];
    auto using domain_part_add_domain, domain_part_foldl_add_domain,
               domain_part_add_unsupported.
Qed.

Lemma unsupported_part_process_line tlds st raw :
  unsupported_part (process_line tlds st raw)
  = foldl push (unsupported_part st) (unsupported_candidates raw).
Proof.
  unfold process_line, unsupported_candidates.
  destruct (parse_line raw) as [[[] v]|]; cbn [foldl];
    auto using unsupported_part_add_domain, unsupported_part_foldl_add_domain,
               unsupported_part_add_unsupported.
Qed.

Lemma domain_part_lines tlds lines : ∀ st,
  domain_part (foldl (process_line tlds) st lines)
  = foldl push (domain_part st) (lines ≫= domain_candidates tlds).
Proof.
  induction lines as [|l lines IH]; intros st; [done|]. cbn [foldl].
  by rewrite IH, bind_cons, foldl_app, domain_part_process_line.
Qed.

Lemma unsupported_part_lines tlds lines : ∀ st,
  unsupported_part (foldl (process_line tlds) st lines)
  = foldl push (unsupported_part st) (lines ≫= unsupported_candidates).
Proof.
  induction lines as [|l lines IH]; intros st; [done|]. cbn [foldl].
  by rewrite IH, bind_cons, foldl_app, unsupported_part_process_line.
Qed.

(** The nested loops are one loop over the lines of all files in order. *)
Lemma aggregate_flat tlds files : ∀ st,
  foldl (foldl (process_line tlds)) st files
  = foldl (process_line tlds) st (mjoin files).
Proof.
  induction files as [|f files IH]; intros st; [done|].
  cbn [foldl]. rewrite IH.
  change (mjoin (f :: files)) with (f ++ mjoin files). by rewrite foldl_app.
Qed.

Lemma domains_aggregate tlds files :
  domains (aggregate tlds files)
  = first_occurrences
      (filter (λ d, d ≠ "") (mjoin files ≫= domain_candidates tlds)).
Proof.
  unfold aggregate. rewrite aggregate_flat.
  change (domains ?st) with (domain_part st).1.
  rewrite domain_part_lines.
  destruct (foldl_push (mjoin files ≫= domain_candidates tlds)
              (domain_part initial_state)) as [_ ->];
    [apply mirrors_empty|].
  cbn [domain_part initial_state domains fst app].
  apply filter_not_in_nil.
Qed.

Lemma unsupported_aggregate tlds files :
  unsupported (aggregate tlds files)
  = first_occurrences
      (filter (λ d, d ≠ "") (mjoin files ≫= unsupported_candidates)).
Proof.
  unfold aggregate. rewrite aggregate_flat.
  change (unsupported ?st) with (unsupported_part st).1.
  rewrite (unsupported_part_lines tlds).
  destruct (foldl_push (mjoin files ≫= unsupported_candidates)
              (unsupported_part initial_state)) as [_ ->];
    [apply mirrors_empty|].
  cbn [unsupported_part initial_state unsupported fst app].
  apply filter_not_in_nil.
Qed.

Lemma seen_aggregate tlds files x :
  x ∈ seen (aggregate tlds files) ↔ x ∈ domains (aggregate tlds files).
Proof.
  unfold aggregate. rewrite aggregate_flat.
  change (seen ?st) with (domain_part st).2.
  change (domains ?st) with (domain_part st).1.
  rewrite domain_part_lines.
  by destruct (foldl_push (mjoin files ≫= domain_candidates tlds)
                 (domain_part initial_state) mirrors_empty) as [Hm _].
Qed.

(** C3: whatever the input lines, the domains output has no duplicate and no
    empty string, and it is the sequence of everything the lines offer
    (literal entries and keyword expansions alike, in processing order,
    tested against one seen-set) with each non-empty string kept at its
    first occurrence only: a domain offered several times, by a literal line
    or by an expansion, holds exactly one position. *)
Theorem domains_unique_first_seen (tlds : list string)
    (files : list (list string)) :
  let out := domains (aggregate tlds files) in
  let offered := mjoin files ≫= domain_candidates tlds in
  NoDup out ∧ ("" ∉ out) ∧
  (∀ d, d ∈ seen (aggregate tlds files) ↔ d ∈ out) ∧
  out = first_occurrences (filter (λ d, d ≠ "") offered) ∧
  (∀ d, d ≠ "" → d ∈ offered →
     ∃ i, out !! i = Some d ∧ ∀ j, out !! j = Some d → j = i).
Proof.
  intros out offered.
  assert (out = first_occurrences (filter (λ d, d ≠ "") offered)) as Hout
    by apply domains_aggregate.
  assert (NoDup out) as Hnd by (rewrite Hout; apply NoDup_first_occurrences).
  split_and!; [done| |apply seen_aggregate|done|].
  - rewrite Hout, elem_of_first_occurrences, list_elem_of_filter. tauto.
  - intros d Hne Hd.
    assert (d ∈ out) as [i Hi]%list_elem_of_lookup.
    { rewrite Hout, elem_of_first_occurrences, list_elem_of_filter. tauto. }
    exists i. split; [done|]. intros j Hj.
    by apply (NoDup_lookup out j i d).
Qed.

Lemma domains_unique_first_seen_witness :
  domains (aggregate ["com"; "net"]
             [["DOMAIN,Test.NET"; "DOMAIN-KEYWORD,test"]; ["test.com"]])
  = ["test.net"; "test.com"] ∧
  ∃ i, domains (aggregate ["com"; "net"]
                  [["DOMAIN,Test.NET"; "DOMAIN-KEYWORD,test"]; ["test.com"]])
         !! i = Some "test.com".
Proof.
  pose proof (domains_unique_first_seen ["com"; "net"]
    [["DOMAIN,Test.NET"; "DOMAIN-KEYWORD,test"]; ["test.com"]]) as H.
  cbv zeta in H. destruct H as (_ & _ & _ & Heq & Hpos). split.
  - rewrite Heq. vm_compute. reflexivity.
  - destruct (Hpos "test.com") as (i & Hi & _).
    + discriminate.
    + apply (list_elem_of_lookup_2 _ 1). vm_compute. reflexivity.
    + by exists i.
Defined.

(** ** Scenario A *)

(** C2: on the one file of scenario A with the TLDs com and net, the
    pipeline yields the domains example.com, example.org, test.com, test.net
    and the unsupported entry domain-match,foo.com; [main] writes them out
    and returns 0. *)
Theorem scenario_A :
  splitlines (read_text scenario_fs "litsts/a.list") = scenario_lines ∧
  parse_keyword_tlds (keyword_tlds scenario_args) = ["com"; "net"] ∧
  domains (aggregate ["com"; "net"] [scenario_lines])
    = ["example.com"; "example.org"; "test.com"; "test.net"] ∧
  unsupported (aggregate ["com"; "net"] [scenario_lines])
    = ["domain-match,foo.com"] ∧
  main scenario_args scenario_fs
    = (0%Z,
       [ MkdirParents "generated/routes.txt";
         WriteText "generated/routes.txt"
           (join newline ["example.com"; "example.org"; "test.com"; "test.net"]
            +:+ newline);
         MkdirParents "generated/unsupported.txt";
         WriteText "generated/unsupported.txt"
           ("domain-match,foo.com" +:+ newline) ]).
Proof. split_and!; vm_compute; reflexivity. Qed.

(** ** Prefixes in the wrong letter case *)

Lemma elem_of_SUPPORTED_PREFIXES P :
  P ∈ SUPPORTED_PREFIXES ↔
  P = "DOMAIN" ∨ P = "DOMAIN-SUFFIX" ∨ P = "DOMAIN-KEYWORD".
Proof.
  unfold SUPPORTED_PREFIXES. rewrite !elem_of_union, !elem_of_singleton. tauto.
Qed.

Lemma case_variant_unsupported prefix :
  case_variant prefix → prefix ∉ SUPPORTED_PREFIXES.
Proof.
  intros (P & HP & Hlow & Hne) Hin.
  apply elem_of_SUPPORTED_PREFIXES in HP, Hin.
  destruct HP as [->|[->| ->]], Hin as [->|[->| ->]];
    first [ by apply Hne | by vm_compute in Hlow ].
Qed.

Lemma case_variant_head prefix :
  case_variant prefix → ∃ c r, prefix = String c r ∧ lower_char c = "d"%char.
Proof.
  intros (P & HP & Hlow & _). apply elem_of_SUPPORTED_PREFIXES in HP.
  destruct prefix as [|c r].
  - destruct HP as [->|[->| ->]]; by vm_compute in Hlow.
  - exists c, r. split; [done|].
    apply (f_equal (λ s, match s with String a _ => a | "" => c end)) in Hlow.
    destruct HP as [->|[->| ->]]; exact Hlow.
Qed.

Lemma length_app s t :
  String.length (s +:+ t) = String.length s + String.length t.
Proof. induction s as [|a s IH]; [done|]. rewrite app_String. simpl. by rewrite IH. Qed.

Lemma length_normalize_ge s :
  String.length (strip s) ≤ S (String.length (normalize s)).
Proof.
  unfold normalize. rewrite <- (length_lower (strip s)).
  destruct (endswith_char _ _); [|lia].
  destruct (lower (strip s)) as [|c r] eqn:E; [simpl; lia|].
  rewrite (length_drop_last (String c r)) by done. lia.
Qed.

Lemma parse_line_raw raw pre post :
  is_skipped (strip raw) = false →
  strip raw = pre +:+ "," +:+ post → contains_char "," pre = false →
  strip pre ∉ SUPPORTED_PREFIXES →
  parse_line raw = Some (Kraw, strip raw).
Proof.
  intros Hskip Hline Hpre Hun. unfold parse_line.
  fold (is_skipped (strip raw)). rewrite Hskip.
  assert (contains_char "," (strip raw) = true) as ->.
  { rewrite Hline, contains_char_app. simpl. by rewrite orb_true_r. }
  rewrite Hline at 1. change ("," +:+ post) with (String "," post).
  rewrite (split_first_app _ _ _ Hpre).
  rewrite elem_of_SUPPORTED_PREFIXES in Hun.
  rewrite !bool_decide_false; [done|..]; try tauto.
  rewrite elem_of_SUPPORTED_PREFIXES. tauto.
Qed.

(** A trimmed line whose prefix is a case variant is neither empty nor a
    comment: it starts with the letter d, in either case. *)
Lemma case_variant_not_skipped raw pre post :
  strip raw = pre +:+ "," +:+ post → case_variant (strip pre) →
  is_skipped (strip raw) = false ∧ 2 ≤ String.length (strip raw).
Proof.
  intros Hline Hcv. pose proof (strip_no_lead raw) as Hlead.
  destruct (case_variant_head _ Hcv) as (c & r & Hpre & Hc).
  destruct pre as [|a pre']; [done|].
  rewrite Hline, app_String in Hlead. cbn [starts_with_space] in Hlead.
  unfold strip in Hpre. rewrite lstrip_keep in Hpre by done.
  rewrite rstrip_cons_keep in Hpre by done. injection Hpre as -> _.
  rewrite Hline. split.
  - rewrite app_String. unfold is_skipped. cbn.
    rewrite !bool_decide_false; [done|intros <-; by vm_compute in Hc..].
  - rewrite length_app. simpl. lia.
Qed.

(** C9: a line whose comma-separated prefix is DOMAIN, DOMAIN-SUFFIX or
    DOMAIN-KEYWORD in another letter case is classified 'raw' with the whole
    trimmed line as payload; it leaves the domains output alone, and its
    normalised full line is appended to the unsupported output (unless
    already there), so every run over a file holding the line lists it as
    unsupported. *)
Theorem case_variant_prefix_is_raw (raw_line pre post : string) :
  strip raw_line = pre +:+ "," +:+ post → contains_char "," pre = false →
  case_variant (strip pre) →
  parse_line raw_line = Some (Kraw, strip raw_line) ∧
  normalize (strip raw_line) ≠ "" ∧
  (∀ tlds st,
     domains (process_line tlds st raw_line) = domains st ∧
     seen (process_line tlds st raw_line) = seen st ∧
     (normalize (strip raw_line) ∉ unsupported_seen st →
        unsupported (process_line tlds st raw_line)
        = unsupported st ++ [normalize (strip raw_line)])) ∧
  (∀ tlds files file, file ∈ files → raw_line ∈ file →
     normalize (strip raw_line) ∈ unsupported (aggregate tlds files)).
Proof.
  intros Hline Hpre Hcv.
  destruct (case_variant_not_skipped _ _ _ Hline Hcv) as [Hskip Hlen].
  assert (parse_line raw_line = Some (Kraw, strip raw_line)) as Hparse
    by eauto using parse_line_raw, case_variant_unsupported.
  assert (normalize (strip raw_line) ≠ "") as Hne.
  { pose proof (length_normalize_ge (strip raw_line)) as H.
    rewrite strip_strip in H. intros E. rewrite E in H. simpl in H. lia. }
  split_and!; [done..| |].
  - intros tlds st. unfold process_line. rewrite Hparse.
    unfold add_unsupported. rewrite (proj2 (is_empty_false _) Hne).
    split_and!; [by destruct (bool_decide _)..|].
    intros Hnew. by rewrite bool_decide_true.
  - intros tlds files file Hfile Hraw.
    rewrite unsupported_aggregate, elem_of_first_occurrences,
      list_elem_of_filter. split; [done|].
    apply list_elem_of_bind. exists raw_line. split.
    + unfold unsupported_candidates. rewrite Hparse. apply list_elem_of_here.
    + apply list_elem_of_join. eauto.
Qed.

Lemma case_variant_prefix_is_raw_witness :
  parse_line " domain,Example.COM " = Some (Kraw, "domain,Example.COM") ∧
  "domain,example.com"
    ∈ unsupported (aggregate ["com"] [["x.org"; " domain,Example.COM "]]).
Proof.
  assert (case_variant (strip "domain")) as Hcv.
  { exists "DOMAIN". split_and!; [|reflexivity|discriminate].
    apply elem_of_SUPPORTED_PREFIXES. by left. }
  destruct (case_variant_prefix_is_raw " domain,Example.COM "
              "domain" "Example.COM" (eq_refl _) (eq_refl _) Hcv)
    as (Hp & _ & _ & Hin).
  split; [exact Hp|].
  apply (Hin ["com"] [["x.org"; " domain,Example.COM "]]
           ["x.org"; " domain,Example.COM "]).
  - apply list_elem_of_here.
  - apply list_elem_of_further, list_elem_of_here.
Defined.

(** ** An empty TLD list *)

(** The built-in list has 34 entries, and the default of [--keyword-tlds]
    (the list joined by commas) parses back to it. *)
Lemma default_keyword_tlds_roundtrip :
  length DEFAULT_KEYWORD_TLDS = 34 ∧
  parse_keyword_tlds (join "," DEFAULT_KEYWORD_TLDS) = DEFAULT_KEYWORD_TLDS.
Proof. split; vm_compute; reflexivity. Qed.

Lemma strip_cons_space c s : is_space c = true → strip (String c s) = strip s.
Proof. intros Hc. unfold strip. simpl. by rewrite Hc. Qed.

Lemma split_all_blank s :
  all_chars is_comma_or_space s = true →
  Forall (λ t, strip t = "") (split_all "," s).
Proof.
  induction s as [|c s IH]; simpl; [by repeat constructor|].
  intros [Hc Hs]%andb_true_iff. specialize (IH Hs).
  case_bool_decide as Hcomma; [by constructor|].
  assert (is_space c = true) as Hsp.
  { unfold is_comma_or_space in Hc. rewrite bool_decide_false in Hc by done.
    by rewrite orb_false_r in Hc. }
  destruct (split_all "," s) as [|p ps].
  - repeat constructor. by rewrite strip_cons_space.
  - inversion IH; subst. constructor; [|done]. by rewrite strip_cons_space.
Qed.

Lemma filter_nonblank_nil (l : list string) :
  Forall (λ t, strip t = "") l → filter (λ t, strip t ≠ "") l = [].
Proof.
  induction 1 as [|t l Ht _ IH]; [done|].
  by rewrite filter_cons_False by tauto.
Qed.

(** C10: a [--keyword-tlds] value made of commas and whitespace parses to
    the empty list; with the empty list [expand_keyword] returns nothing for
    every keyword whose normalisation has no '.', and a DOMAIN-KEYWORD line
    with such a keyword leaves all four accumulators as they were: no domain
    is added and nothing is recorded as unsupported. *)
Theorem empty_tlds_drop_keywords :
  (∀ s, all_chars is_comma_or_space s = true → parse_keyword_tlds s = []) ∧
  (∀ K, contains_char "." (normalize K) = false → expand_keyword K [] = []) ∧
  (∀ st raw_line K,
     parse_line raw_line = Some (Kkeyword, K) →
     contains_char "." (normalize K) = false →
     process_line [] st raw_line = st).
Proof.
  assert (∀ K, contains_char "." (normalize K) = false →
               expand_keyword K [] = []) as Hexp.
  { intros K HK. unfold expand_keyword. rewrite HK.
    by destruct (is_empty _). }
  split_and!; [|done|].
  - intros s Hs. unfold parse_keyword_tlds.
    by rewrite (filter_nonblank_nil _ (split_all_blank s Hs)).
  - intros st raw K Hparse HK. unfold process_line.
    by rewrite Hparse, (Hexp K HK).
Qed.

Lemma empty_tlds_drop_keywords_witness :
  parse_keyword_tlds " , ,," = [] ∧
  expand_keyword "Test" [] = [] ∧
  process_line (parse_keyword_tlds " , ,,") initial_state "DOMAIN-KEYWORD, Test"
  = initial_state.
Proof.
  destruct empty_tlds_drop_keywords as (Htlds & Hexp & Hline).
  assert (parse_keyword_tlds " , ,," = []) as E by (apply Htlds; reflexivity).
  split_and!.
  - exact E.
  - apply Hexp. reflexivity.
  - rewrite E. apply (Hline initial_state "DOMAIN-KEYWORD, Test" "Test");
      reflexivity.
Defined.

(** ** The writer *)

Lemma app_eq_empty s t : s +:+ t = "" → s = "" ∧ t = "".
Proof. destruct s; [done|]. by rewrite app_String. Qed.

Lemma join_empty sep items :
  sep ≠ "" → (join sep items = "" ↔ items = [] ∨ items = [""]).
Proof.
  intros Hsep. split.
  - destruct items as [|x [|y rest]]; simpl.
    + by left.
    + intros ->. by right.
    + intros [_ [? _]%app_eq_empty]%app_eq_empty. done.
  - by intros [-> | ->].
Qed.

(** C8 (as amended): with a path, [write_list] makes the parent directories
    and writes one file: the items joined by newlines and followed by one
    newline when that joined text is not empty, and a zero-byte file when it
    is empty, which is the case for the empty sequence and for the sequence
    holding just the empty string; without a path it does nothing. *)
Theorem write_list_contract (items : list string) :
  write_list None items = [] ∧
  (∀ p, items = [] ∨ items = [""] →
     write_list (Some p) items = [MkdirParents p; WriteText p ""]) ∧
  (∀ p, items ≠ [] → items ≠ [""] →
     write_list (Some p) items
     = [MkdirParents p; WriteText p (join newline items +:+ newline)]).
Proof.
  split_and!; [done|..]; intros p.
  - intros H. apply (join_empty newline) in H; [|done].
    unfold write_list. by rewrite H.
  - intros H1 H2. unfold write_list.
    destruct (join newline items) eqn:E; [|done].
    apply (join_empty newline) in E; [|done]. tauto.
Qed.

Lemma write_list_contract_witness :
  write_list (Some "out.txt") ["a.com"; "b.org"]
  = [MkdirParents "out.txt";
     WriteText "out.txt" ("a.com" +:+ newline +:+ "b.org" +:+ newline)] ∧
  write_list (Some "out.txt") [] = [MkdirParents "out.txt"; WriteText "out.txt" ""].
Proof.
  split.
  - destruct (write_list_contract ["a.com"; "b.org"]) as (_ & _ & H).
    rewrite H; [reflexivity | discriminate..].
  - destruct (write_list_contract []) as (_ & H & _).
    apply H. by left.
Defined.

(** C8 (as stated) fails: the sequence holding just the empty string is not
    empty, yet its file is empty and has no trailing newline. *)
Lemma write_list_single_empty_item :
  [""] ≠ @nil string ∧
  write_list (Some "out.txt") [""]
  = [MkdirParents "out.txt"; WriteText "out.txt" ""] ∧
  write_list (Some "out.txt") [""]
  ≠ [MkdirParents "out.txt";
     WriteText "out.txt" (join newline [""] +:+ newline)].
Proof. split_and!; [discriminate | reflexivity | vm_compute; discriminate]. Qed.

(** ** The entry point *)

Lemma insert_sorted_not_nil x l : insert_sorted x l ≠ [].
Proof. destruct l as [|y r]; simpl; [done|]. by destruct (String.leb x y). Qed.

Lemma sorted_nil l : sorted l = [] ↔ l = [].
Proof.
  split; [|by intros ->]. destruct l as [|x l]; [done|]. simpl.
  intros H. by apply insert_sorted_not_nil in H.
Qed.

(** C7 (as amended): [main] returns 2, having written nothing, when the
    input directory does not exist or holds no '*.list' file; otherwise it
    writes the domains file, then the unsupported file if a path for it is
    configured (both files when it is, the domains file alone when
    [--unsupported-file] is empty), and then returns 1 when strict mode is on
    and some unsupported entry was found, and 0 in every other case. *)
Theorem main_exit_codes (args : Args) (fs : FileSystem) :
  let dir := input_dir args in
  let st := final_state args fs in
  let first_write := write_list (Some (output_file args)) (domains st) in
  let second_write :=
    write_list (Some (unsupported_file args)) (unsupported st) in
  let writes :=
    if is_empty (unsupported_file args) then first_write
    else first_write ++ second_write in
  (path_exists fs dir = false ∨ glob_list fs dir = [] →
     (main args fs).1 = 2%Z ∧
     ∀ e, e ∈ (main args fs).2 → ∃ m, e = PrintErr m) ∧
  (path_exists fs dir = true → glob_list fs dir ≠ [] →
     (strict args = true → unsupported st ≠ [] →
        main args fs
        = (1%Z, writes ++ [PrintErr (FoundUnsupported
                                       (length (unsupported st))
                                       (unsupported_file args))])) ∧
     (strict args = false ∨ unsupported st = [] →
        main args fs = (0%Z, writes))).
Proof.
  intros dir st first_write second_write writes. subst dir.
  unfold main. cbv zeta. split.
  - intros [Hdir | Hglob].
    + rewrite Hdir. cbn [negb fst snd].
      split; [done|]. intros e ->%list_elem_of_singleton. eauto.
    + rewrite Hglob. destruct (path_exists fs (input_dir args)); cbn.
      * split; [done|]. intros e ->%list_elem_of_singleton. eauto.
      * split; [done|]. intros e ->%list_elem_of_singleton. eauto.
  - intros Hdir Hglob. rewrite Hdir. cbn [negb].
    rewrite bool_decide_false by by rewrite sorted_nil.
    fold (final_state args fs). fold st. fold first_write.
    assert (first_write ++
              write_list (if is_empty (unsupported_file args) then None
                          else Some (unsupported_file args)) (unsupported st)
            = writes) as Hw.
    { unfold writes. destruct (is_empty (unsupported_file args)); [|done].
      cbn [write_list]. apply app_nil_r. }
    split.
    + intros Hstrict Hun. rewrite Hstrict, bool_decide_false by done.
      cbn [negb andb]. by rewrite app_assoc, Hw.
    + intros [Hstrict | Hun].
      * by rewrite Hstrict, andb_false_r, Hw.
      * rewrite bool_decide_true by done. cbn [negb andb]. by rewrite Hw.
Qed.

Lemma main_exit_codes_witness :
  (main strict_args scenario_fs).1 = 1%Z ∧
  (main strict_args scenario_fs).2
  = [ MkdirParents "generated/routes.txt";
      WriteText "generated/routes.txt"
        (join newline ["example.com"; "example.org"; "test.com"; "test.net"]
         +:+ newline);
      MkdirParents "generated/unsupported.txt";
      WriteText "generated/unsupported.txt"
        ("domain-match,foo.com" +:+ newline);
      PrintErr (FoundUnsupported 1 "generated/unsupported.txt") ].
Proof.
  pose proof (main_exit_codes strict_args scenario_fs) as H.
  cbv zeta in H. destruct H as [_ H].
  destruct H as [H _]; [reflexivity | discriminate |].
  rewrite H; [|reflexivity | vm_compute; discriminate].
  split; [reflexivity | vm_compute; reflexivity].
Defined.

(** C7 (as stated) fails: in strict mode with an unsupported entry, but with
    the unsupported-entries file switched off, [main] returns 1 after
    writing the domains file only. *)
Lemma strict_failure_writes_one_file :
  strict strict_args_no_file = true ∧
  unsupported (final_state strict_args_no_file scenario_fs)
  = ["domain-match,foo.com"] ∧
  main strict_args_no_file scenario_fs
  = (1%Z,
     [ MkdirParents "generated/routes.txt";
       WriteText "generated/routes.txt"
         (join newline ["example.com"; "example.org"; "test.com"; "test.net"]
          +:+ newline);
       PrintErr (FoundUnsupported 1 "") ]) ∧
  ¬ ∃ c, WriteText (unsupported_file strict_args_no_file) c
           ∈ (main strict_args_no_file scenario_fs).2.
Proof.
  split_and!; [reflexivity | vm_compute; reflexivity
              | vm_compute; reflexivity |].
  intros [c Hc]. vm_compute in Hc.
  repeat (apply elem_of_cons in Hc as [Hc|Hc]; [discriminate|]).
  by apply elem_of_nil in Hc.
Qed.

(** * Further properties *)

(** ** The classifier, the normaliser and the expander *)

Lemma parse_line_kind raw k v :
  parse_line raw = Some (k, v) → k = Kdomain ∨ k = Kkeyword ∨ k = Kraw.
Proof.
  unfold parse_line. destruct (_ || _); [done|].
  destruct (contains_char _ _); [|intros [= <- _]; tauto].
  destruct (split_first _ _) as [prefix v'].
  repeat case_bool_decide; cbn; intros [= <- _]; try tauto.
  exfalso. match goal with H : _ ∈ SUPPORTED_PREFIXES |- _ =>
    apply elem_of_SUPPORTED_PREFIXES in H end. tauto.
Qed.

(** X1: [parse_line] never answers 'unknown': the three supported prefixes
    are all taken by the 'domain' and 'keyword' branches above it. *)
Theorem parse_line_never_unknown (raw_line value : string) :
  parse_line raw_line ≠ Some (Kunknown, value).
Proof. intros H. by destruct (parse_line_kind _ _ _ H) as [?|[?|?]]. Qed.

Lemma is_skipped_false line :
  is_skipped line = false → line ≠ "".
Proof. by destruct line. Qed.

(** X2: whatever [parse_line] returns carries no white space at either end,
    the payload of a 'raw' answer is the trimmed line itself, which is not
    empty and holds a comma, and indenting or padding a line does not change
    its classification. *)
Theorem parse_line_payload (raw_line : string) :
  parse_line (strip raw_line) = parse_line raw_line ∧
  ∀ k value, parse_line raw_line = Some (k, value) →
    strip value = value ∧
    (k = Kraw → value = strip raw_line ∧ value ≠ "" ∧
                contains_char "," value = true).
Proof.
  split; [unfold parse_line; by rewrite strip_strip|].
  intros k value. unfold parse_line. fold (is_skipped (strip raw_line)).
  destruct (is_skipped _) eqn:Hskip; [done|].
  destruct (contains_char _ _) eqn:Hcomma.
  - destruct (split_first _ _) as [prefix v].
    repeat case_bool_decide; cbn; intros [= <- <-];
      (split; [by rewrite strip_strip|]); try done.
    intros _. split_and!; [done|by apply is_skipped_false|done].
  - intros [= <- <-]. by rewrite strip_strip.
Qed.

Lemma parse_line_payload_witness :
  parse_line "   DOMAIN-MATCH , foo.com  " = Some (Kraw, "DOMAIN-MATCH , foo.com") ∧
  strip "DOMAIN-MATCH , foo.com" = "DOMAIN-MATCH , foo.com".
Proof.
  destruct (parse_line_payload "   DOMAIN-MATCH , foo.com  ") as [_ H].
  split; [reflexivity|].
  by destruct (H Kraw "DOMAIN-MATCH , foo.com" (eq_refl _)) as [Hs _].
Defined.


(** X4: [expand_keyword] never yields an empty string, every string it
    yields starts with the normalised keyword, and it yields at most one
    string or one per TLD. *)
Theorem expand_keyword_elements (K : string) (tlds : list string) :
  length (expand_keyword K tlds) ≤ length tlds `max` 1 ∧
  ∀ d, d ∈ expand_keyword K tlds →
    d ≠ "" ∧ normalize K ≠ "" ∧ ∃ rest, d = normalize K +:+ rest.
Proof.
  unfold expand_keyword. destruct (normalize K) as [|c r] eqn:E; cbn [is_empty].
  - split; [simpl; lia|]. by intros d ?%elem_of_nil.
  - destruct (contains_char _ _).
    + split; [simpl; lia|]. intros d ->%list_elem_of_singleton.
      split_and!; [done..|]. exists "". clear E.
      induction (String c r) as [|a s IH]; [done|].
      by rewrite app_String, <- IH.
    + split; [rewrite length_fmap; lia|].
      intros d (tld & -> & _)%list_elem_of_fmap.
      split_and!; [by rewrite app_String|done|eauto].
Qed.

Lemma expand_keyword_elements_witness :
  "test.net" ≠ "" ∧ ∃ rest, "test.net" = normalize " Test " +:+ rest.
Proof.
  destruct (expand_keyword_elements " Test " ["com"; "net"]) as [_ H].
  destruct (H "test.net") as (H1 & _ & H2).
  - apply (list_elem_of_lookup_2 _ 1). vm_compute. reflexivity.
  - by split.
Defined.

(** ** The two outputs of the aggregator *)

Lemma unsupported_seen_aggregate tlds files x :
  x ∈ unsupported_seen (aggregate tlds files)
  ↔ x ∈ unsupported (aggregate tlds files).
Proof.
  unfold aggregate. rewrite aggregate_flat.
  change (unsupported_seen ?st) with (unsupported_part st).2.
  change (unsupported ?st) with (unsupported_part st).1.
  rewrite (unsupported_part_lines tlds).
  by destruct (foldl_push (mjoin files ≫= unsupported_candidates)
                 (unsupported_part initial_state) mirrors_empty) as [Hm _].
Qed.

(** X5: the unsupported output, like the domains output, has no duplicate
    and no empty string, agrees with its membership set, and is the sequence
    of the normalised lines with an unrecognised prefix, each kept at its
    first occurrence. *)
Theorem unsupported_unique_first_seen (tlds : list string)
    (files : list (list string)) :
  let out := unsupported (aggregate tlds files) in
  NoDup out ∧ ("" ∉ out) ∧
  (∀ d, d ∈ unsupported_seen (aggregate tlds files) ↔ d ∈ out) ∧
  out = first_occurrences
          (filter (λ d, d ≠ "") (mjoin files ≫= unsupported_candidates)).
Proof.
  intros out.
  assert (out = first_occurrences
            (filter (λ d, d ≠ "") (mjoin files ≫= unsupported_candidates)))
    as Hout by apply unsupported_aggregate.
  split_and!; [| |apply unsupported_seen_aggregate|done].
  - rewrite Hout. apply NoDup_first_occurrences.
  - rewrite Hout, elem_of_first_occurrences, list_elem_of_filter. tauto.
Qed.

(** X6: the unsupported output does not depend on the TLD list, so neither
    does the exit code of [main]: [--keyword-tlds] cannot turn a strict run
    from failure to success or back. *)
Theorem unsupported_independent_of_tlds :
  (∀ tlds tlds' files,
     unsupported (aggregate tlds files) = unsupported (aggregate tlds' files)) ∧
  (∀ dir out uns strict_flag tlds tlds' fs,
     (main (Build_Args dir out uns strict_flag tlds) fs).1
     = (main (Build_Args dir out uns strict_flag tlds') fs).1).
Proof.
  assert (∀ tlds tlds' files,
    unsupported (aggregate tlds files) = unsupported (aggregate tlds' files))
    as H by (intros; by rewrite !unsupported_aggregate).
  split; [done|]. intros dir out uns sf tlds tlds' fs. unfold main. cbn.
  destruct (path_exists fs dir); cbn; [|done].
  case_bool_decide; [done|].
  rewrite (H (parse_keyword_tlds tlds) (parse_keyword_tlds tlds')).
  by destruct (_ && _).
Qed.

Lemma elem_of_aggregate_lines {A} (f : string → list A)
    (files : list (list string)) x :
  x ∈ mjoin files ≫= f ↔
  ∃ file raw, file ∈ files ∧ raw ∈ file ∧ x ∈ f raw.
Proof.
  rewrite list_elem_of_bind. split.
  - intros (raw & Hx & (file & Hraw & Hfile)%list_elem_of_join). eauto.
  - intros (file & raw & Hfile & Hraw & Hx). exists raw. split; [done|].
    apply list_elem_of_join. eauto.
Qed.

(** X7: the domains output holds exactly the non-empty strings some line
    offers: the normalised value of a 'domain' line, or a member of the
    expansion of a 'keyword' line.  Nothing is lost and nothing is made up. *)
Theorem domains_membership (tlds : list string) (files : list (list string))
    (d : string) :
  d ∈ domains (aggregate tlds files) ↔
  d ≠ "" ∧ ∃ file raw_line, file ∈ files ∧ raw_line ∈ file ∧
    ((∃ value, parse_line raw_line = Some (Kdomain, value) ∧
               d = normalize value) ∨
     (∃ K, parse_line raw_line = Some (Kkeyword, K) ∧
           d ∈ expand_keyword K tlds)).
Proof.
  rewrite domains_aggregate, elem_of_first_occurrences, list_elem_of_filter,
    elem_of_aggregate_lines.
  apply and_iff_compat_l.
  split; intros (file & raw & Hfile & Hraw & H); exists file, raw;
    (split_and!; [done..|]); unfold domain_candidates in *.
  - destruct (parse_line raw) as [[[] v]|]; try by apply elem_of_nil in H.
    + apply list_elem_of_singleton in H. left. eauto.
    + right. eauto.
  - destruct H as [(v & -> & ->) | (K & -> & H)]; [|done].
    apply list_elem_of_here.
Qed.

Lemma drop_last_empty s : drop_last s = "" → String.length s ≤ 1.
Proof. destruct s as [|a [|b s]]; simpl; [lia..|done]. Qed.

Lemma normalize_empty s : normalize s = "" → strip s = "" ∨ strip s = ".".
Proof.
  unfold normalize, endswith_char. case_bool_decide as Hlast.
  - intros Hd%drop_last_empty. rewrite length_lower in Hd. right.
    rewrite last_char_lower in Hlast.
    destruct (strip s) as [|a [|b r]].
    + discriminate Hlast.
    + injection Hlast as Hlast. apply (proj1 (lower_char_dot a)) in Hlast.
      by subst.
    + exfalso. simpl in Hd. lia.
  - intros H. left. by apply (proj1 (lower_empty _)).
Qed.

Lemma raw_payload_normalized raw v :
  parse_line raw = Some (Kraw, v) → normalize v ≠ "".
Proof.
  intros Hp Hn. unfold parse_line in Hp. fold (is_skipped (strip raw)) in Hp.
  destruct (is_skipped _) eqn:Hskip; [done|].
  destruct (contains_char _ _) eqn:Hcomma; [|done].
  destruct (split_first _ _) as [prefix v'].
  assert (v = strip raw) as ->
    by (repeat case_bool_decide; cbn in Hp; congruence).
  apply normalize_empty in Hn. rewrite strip_strip in Hn.
  destruct Hn as [Hn|Hn]; rewrite Hn in *; done.
Qed.

Lemma insert_sorted_Permutation x l : insert_sorted x l ≡ₚ x :: l.
Proof.
  induction l as [|y l IH]; simpl; [done|].
  destruct (String.leb x y); [done|]. by rewrite IH, Permutation_swap.
Qed.

Lemma sorted_Permutation l : sorted l ≡ₚ l.
Proof.
  induction l as [|x l IH]; simpl; [done|].
  by rewrite insert_sorted_Permutation, IH.
Qed.

Lemma unsupported_nonempty tlds files :
  unsupported (aggregate tlds files) ≠ [] ↔
  ∃ file raw v, file ∈ files ∧ raw ∈ file ∧ parse_line raw = Some (Kraw, v).
Proof.
  rewrite unsupported_aggregate. split.
  - destruct (first_occurrences _) as [|u us] eqn:E; [done|]. intros _.
    assert (u ∈ first_occurrences
              (filter (λ d, d ≠ "") (mjoin files ≫= unsupported_candidates)))
      as Hu by (rewrite E; apply list_elem_of_here).
    rewrite elem_of_first_occurrences, list_elem_of_filter,
      elem_of_aggregate_lines in Hu.
    destruct Hu as (_ & file & raw & Hfile & Hraw & Hu).
    unfold unsupported_candidates in Hu.
    destruct (parse_line raw) as [[[] v]|] eqn:Hp;
      try by apply elem_of_nil in Hu.
    + by destruct (parse_line_kind _ _ _ Hp) as [?|[?|?]].
    + eauto 6.
  - intros (file & raw & v & Hfile & Hraw & Hp) E.
    assert (normalize v ∈ first_occurrences
              (filter (λ d, d ≠ "") (mjoin files ≫= unsupported_candidates)))
      as Hin.
    { rewrite elem_of_first_occurrences, list_elem_of_filter,
        elem_of_aggregate_lines.
      split; [by eapply raw_payload_normalized|].
      exists file, raw. split_and!; [done..|].
      unfold unsupported_candidates. rewrite Hp. apply list_elem_of_here. }
    rewrite E in Hin. by apply elem_of_nil in Hin.
Qed.

(** X8: the exit code of [main] read off its input: it is 0, 1 or 2; it is
    2 exactly when the input directory is missing or holds no '*.list' file;
    and it is 1 exactly when the directory exists, strict mode is on, and
    some line of some listed file is classified 'raw' (a comma-separated line
    with a prefix outside DOMAIN, DOMAIN-SUFFIX and DOMAIN-KEYWORD). *)
Theorem main_exit_code_by_input (args : Args) (fs : FileSystem) :
  let dir := input_dir args in
  let code := (main args fs).1 in
  (code = 0%Z ∨ code = 1%Z ∨ code = 2%Z) ∧
  (code = 2%Z ↔ path_exists fs dir = false ∨ glob_list fs dir = []) ∧
  (code = 1%Z ↔
     path_exists fs dir = true ∧ strict args = true ∧
     ∃ p raw_line value,
       p ∈ glob_list fs dir ∧ raw_line ∈ splitlines (read_text fs p) ∧
       parse_line raw_line = Some (Kraw, value)).
Proof.
  intros dir code. subst code dir. unfold main. cbv zeta.
  destruct (path_exists fs (input_dir args)) eqn:Hdir; cbn [negb fst].
  2:{ split_and!; [auto| |].
      - split; [intros _; by left|done].
      - split; [done|]. by intros [? _]. }
  case_bool_decide as Hglob.
  { apply (proj1 (sorted_nil _)) in Hglob. cbn [fst]. split_and!; [auto| |].
    - split; [intros _; by right|done].
    - split; [done|]. intros (_ & _ & p & ? & ? & Hp & _).
      rewrite Hglob in Hp. by apply elem_of_nil in Hp. }
  rewrite sorted_nil in Hglob.
  case_bool_decide as Hun; cbn [negb andb].
  - cbn [fst]. split_and!; [auto| |].
    + split; [done|]. intros [?|?]; done.
    + split; [done|]. intros (_ & _ & p & raw & v & Hp & Hraw & Hparse).
      exfalso. revert Hun. apply unsupported_nonempty.
      exists (splitlines (read_text fs p)), raw, v. split_and!; [|done..].
      apply list_elem_of_fmap. exists p. split; [done|].
      by rewrite sorted_Permutation.
  - apply unsupported_nonempty in Hun
      as (file & raw & v & Hfile & Hraw & Hparse).
    apply list_elem_of_fmap in Hfile as (p & -> & Hp).
    rewrite sorted_Permutation in Hp.
    destruct (strict args); cbn [fst].
    + split_and!; [auto| |].
      * split; [done|]. intros [?|?]; done.
      * split; [|done]. intros _. split_and!; [done..|]. eauto 7.
    + split_and!; [auto| |].
      * split; [done|]. intros [?|?]; done.
      * split; [done|]. by intros (_ & ? & _).
Qed.

Lemma main_exit_code_by_input_witness :
  (main strict_args scenario_fs).1 = 1%Z.
Proof.
  pose proof (main_exit_code_by_input strict_args scenario_fs) as H.
  cbv zeta in H. destruct H as (_ & _ & H). apply H.
  split_and!; [reflexivity..|].
  exists "litsts/a.list", "DOMAIN-MATCH,foo.com", "DOMAIN-MATCH,foo.com".
  split_and!.
  - apply list_elem_of_here.
  - apply (list_elem_of_lookup_2 _ 3). vm_compute. reflexivity.
  - reflexivity.
Defined.

(** ** Layout of the input *)

Lemma process_line_skipped tlds st raw :
  is_skipped (strip raw) = true → process_line tlds st raw = st.
Proof.
  intros H. unfold process_line, parse_line.
  fold (is_skipped (strip raw)). by rewrite H.
Qed.

Lemma foldl_process_line_filter tlds lines : ∀ st,
  foldl (process_line tlds) st
    (filter (λ raw, is_skipped (strip raw) = false) lines)
  = foldl (process_line tlds) st lines.
Proof.
  induction lines as [|l lines IH]; intros st; [done|].
  rewrite filter_cons. case_decide as H; cbn [foldl]; [by rewrite IH|].
  apply not_false_is_true in H. by rewrite IH, process_line_skipped.
Qed.

(** X9: blank lines and comment lines ('#' or '//' after trimming) change
    nothing: removing them from every file leaves all four accumulators of
    the run as they were. *)
Theorem comments_and_blanks_ignored (tlds : list string)
    (files : list (list string)) :
  aggregate tlds
    (filter (λ raw, is_skipped (strip raw) = false) <$> files)
  = aggregate tlds files.
Proof.
  unfold aggregate. generalize initial_state.
  induction files as [|f files IH]; intros st; [done|].
  cbn [fmap list_fmap foldl]. rewrite <- IH.
  by rewrite foldl_process_line_filter.
Qed.

(** X10: file boundaries change nothing: a run over several files equals a
    run over the one file that holds their lines in the same order, and a
    run over more files continues the run over the first ones. *)
Theorem file_boundaries_ignored (tlds : list string)
    (files more : list (list string)) :
  aggregate tlds files = aggregate tlds [mjoin files] ∧
  aggregate tlds (files ++ more)
  = foldl (process_line tlds) (aggregate tlds files) (mjoin more).
Proof.
  unfold aggregate. split.
  - by rewrite aggregate_flat.
  - by rewrite foldl_app, aggregate_flat.
Qed.

Lemma push_prefix acc d : acc.1 `prefix_of` (push acc d).1.
Proof.
  unfold push. destruct (_ && _); [|done]. by apply prefix_app_r.
Qed.

Lemma push_subseteq acc d : acc.2 ⊆ (push acc d).2.
Proof. unfold push. destruct (_ && _); cbn; set_solver. Qed.

Lemma foldl_push_prefix ds : ∀ acc,
  acc.1 `prefix_of` (foldl push acc ds).1 ∧ acc.2 ⊆ (foldl push acc ds).2.
Proof.
  induction ds as [|d ds IH]; intros acc; [done|]. cbn [foldl].
  destruct (IH (push acc d)) as [H1 H2]. split.
  - etrans; [apply push_prefix | done].
  - etrans; [apply push_subseteq | done].
Qed.

(** X11: the accumulators only grow: processing further lines appends to
    the two lists and adds to the two sets, so the outputs for a run are
    prefixes of the outputs for the same run with more files after it. *)
Theorem outputs_only_grow (tlds : list string) (st : state)
    (lines : list string) (files more : list (list string)) :
  let st' := foldl (process_line tlds) st lines in
  (domains st `prefix_of` domains st') ∧
  (unsupported st `prefix_of` unsupported st') ∧
  seen st ⊆ seen st' ∧ unsupported_seen st ⊆ unsupported_seen st' ∧
  (domains (aggregate tlds files)
     `prefix_of` domains (aggregate tlds (files ++ more))) ∧
  (unsupported (aggregate tlds files)
     `prefix_of` unsupported (aggregate tlds (files ++ more))).
Proof.
  assert (∀ st lines,
    let st' := foldl (process_line tlds) st lines in
    (domains st `prefix_of` domains st') ∧
    (unsupported st `prefix_of` unsupported st') ∧
    seen st ⊆ seen st' ∧ unsupported_seen st ⊆ unsupported_seen st') as H.
  { intros st0 lines0 st'. subst st'.
    change (domains ?s) with (domain_part s).1.
    change (seen ?s) with (domain_part s).2.
    change (unsupported ?s) with (unsupported_part s).1.
    change (unsupported_seen ?s) with (unsupported_part s).2.
    rewrite domain_part_lines, unsupported_part_lines.
    destruct (foldl_push_prefix (lines0 ≫= domain_candidates tlds)
                (domain_part st0)).
    by destruct (foldl_push_prefix (lines0 ≫= unsupported_candidates)
                   (unsupported_part st0)). }
  intros st'. destruct (H st lines) as (? & ? & ? & ?).
  split_and!; [done..| |].
  - unfold aggregate at 2. rewrite foldl_app, aggregate_flat.
    apply (H (aggregate tlds files) (mjoin more)).
  - unfold aggregate at 2. rewrite foldl_app, aggregate_flat.
    apply (H (aggregate tlds files) (mjoin more)).
Qed.

(** ** Sizes and letter case of the outputs *)

Lemma length_first_occurrences l :
  length (first_occurrences l) ≤ length l.
Proof.
  induction l as [|x l IH]; simpl; [done|].
  pose proof (length_filter (λ y, y ≠ x) (first_occurrences l)). lia.
Qed.

Lemma length_bind_le {A B} (f : A → list B) (k : nat) (l : list A) :
  (∀ x, length (f x) ≤ k) → length (l ≫= f) ≤ length l * k.
Proof.
  intros Hf. induction l as [|x l IH]; [done|].
  rewrite bind_cons, List.length_app. specialize (Hf x). simpl. lia.
Qed.

Lemma length_expand_keyword K tlds :
  length (expand_keyword K tlds) ≤ length tlds `max` 1.
Proof.
  unfold expand_keyword. destruct (is_empty _); [simpl; lia|].
  destruct (contains_char _ _); [simpl; lia|]. rewrite length_fmap. lia.
Qed.

Lemma length_domain_candidates tlds raw :
  length (domain_candidates tlds raw) ≤ length tlds `max` 1.
Proof.
  unfold domain_candidates.
  destruct (parse_line raw) as [[[] v]|]; simpl; try lia.
  apply length_expand_keyword.
Qed.

Lemma length_unsupported_candidates raw :
  length (unsupported_candidates raw) ≤ 1.
Proof.
  unfold unsupported_candidates.
  destruct (parse_line raw) as [[[] v]|]; simpl; lia.
Qed.

(** X12: the outputs are bounded by the input: with n input lines and t
    TLDs the domains output has at most n * max(t, 1) entries, and the
    unsupported output at most n. *)
Theorem output_sizes (tlds : list string) (files : list (list string)) :
  length (domains (aggregate tlds files))
    ≤ length (mjoin files) * (length tlds `max` 1) ∧
  length (unsupported (aggregate tlds files)) ≤ length (mjoin files).
Proof.
  rewrite domains_aggregate, unsupported_aggregate. split.
  - etrans; [apply length_first_occurrences|].
    etrans; [apply length_filter|].
    apply length_bind_le, length_domain_candidates.
  - etrans; [apply length_first_occurrences|].
    etrans; [apply length_filter|].
    etrans; [apply (length_bind_le _ 1), length_unsupported_candidates|]. lia.
Qed.

Lemma parse_keyword_tlds_lower s :
  Forall (λ t, lower t = t) (parse_keyword_tlds s).
Proof.
  unfold parse_keyword_tlds. apply Forall_fmap, Forall_forall.
  intros t _. cbn. apply lower_lower.
Qed.

Lemma domain_candidates_lower tlds raw d :
  Forall (λ t, lower t = t) tlds →
  d ∈ domain_candidates tlds raw → lower d = d.
Proof.
  intros Htlds. unfold domain_candidates.
  destruct (parse_line raw) as [[[] v]|]; try by intros ?%elem_of_nil.
  - intros ->%list_elem_of_singleton. apply lower_normalize.
  - unfold expand_keyword. destruct (is_empty _); [by intros ?%elem_of_nil|].
    destruct (contains_char _ _).
    + intros ->%list_elem_of_singleton. apply lower_normalize.
    + intros (tld & -> & Htld)%list_elem_of_fmap.
      rewrite !lower_app, lower_normalize. do 2 f_equal.
      by apply (proj1 (Forall_forall _ _) Htlds).
Qed.

(** X13: the outputs are in lower case: every entry of the unsupported
    output is, every entry of the domains output is when the TLDs are, and
    the TLDs [main] parses from [--keyword-tlds] always are. *)
Theorem outputs_lower_case :
  (∀ tlds files d,
     d ∈ unsupported (aggregate tlds files) → lower d = d) ∧
  (∀ tlds files d, Forall (λ t, lower t = t) tlds →
     d ∈ domains (aggregate tlds files) → lower d = d) ∧
  (∀ args fs d, d ∈ domains (final_state args fs) → lower d = d).
Proof.
  assert (∀ tlds files d, Forall (λ t, lower t = t) tlds →
     d ∈ domains (aggregate tlds files) → lower d = d) as Hdom.
  { intros tlds files d Htlds.
    rewrite domains_aggregate, elem_of_first_occurrences,
      list_elem_of_filter, elem_of_aggregate_lines.
    intros (_ & file & raw & _ & _ & Hd).
    by eapply domain_candidates_lower. }
  split_and!; [|done|].
  - intros tlds files d.
    rewrite unsupported_aggregate, elem_of_first_occurrences,
      list_elem_of_filter, elem_of_aggregate_lines.
    intros (_ & file & raw & _ & _ & Hd). unfold unsupported_candidates in Hd.
    destruct (parse_line raw) as [[[] v]|]; try by apply elem_of_nil in Hd.
    + apply list_elem_of_singleton in Hd as ->. apply lower_normalize.
    + apply list_elem_of_singleton in Hd as ->. apply lower_normalize.
  - intros args fs d. apply Hdom, parse_keyword_tlds_lower.
Qed.

Lemma outputs_lower_case_witness :
  lower "example.org" = "example.org".
Proof.
  destruct outputs_lower_case as (_ & _ & H).
  apply (H scenario_args scenario_fs).
  apply (list_elem_of_lookup_2 _ 1). vm_compute. reflexivity.
Defined.

(** ** The TLD list *)

Lemma lower_char_comma c : lower_char c = ","%char ↔ c = ","%char.
Proof. by destruct c as [[] [] [] [] [] [] [] []]. Qed.

Lemma contains_comma_lower s :
  contains_char "," (lower s) = contains_char "," s.
Proof.
  induction s as [|a s IH]; [done|]. simpl. rewrite IH. f_equal.
  apply bool_decide_ext, lower_char_comma.
Qed.

Lemma contains_char_strip c s :
  contains_char c s = false → contains_char c (strip s) = false.
Proof.
  intros H. apply not_true_iff_false. intros Hs.
  apply contains_char_rstrip, contains_char_lstrip in Hs. congruence.
Qed.

Lemma split_all_no_sep c s :
  Forall (λ p, contains_char c p = false) (split_all c s).
Proof.
  induction s as [|a s IH]; simpl; [by repeat constructor|].
  case_bool_decide as Ha; [by constructor|].
  destruct (split_all c s) as [|p ps].
  - repeat constructor. simpl. by rewrite bool_decide_false.
  - inversion IH; subst. constructor; [|done].
    simpl. by rewrite bool_decide_false.
Qed.

(** X14: every TLD parsed from [--keyword-tlds] is a non-empty string in
    lower case with no white space around it and no comma in it. *)
Theorem parse_keyword_tlds_clean (s : string) :
  Forall clean_tld (parse_keyword_tlds s).
Proof.
  unfold parse_keyword_tlds. apply Forall_fmap, Forall_forall.
  intros p [Hne Hp]%list_elem_of_filter. cbn.
  split_and!.
  - intros H. apply Hne. by apply (proj1 (lower_empty _)).
  - apply lower_lower.
  - by rewrite strip_lower, strip_strip.
  - rewrite contains_comma_lower. apply contains_char_strip.
    by apply (proj1 (Forall_forall _ _) (split_all_no_sep "," s)).
Qed.

Lemma split_all_single c x :
  contains_char c x = false → split_all c x = [x].
Proof.
  induction x as [|a x IH]; [done|]. simpl.
  intros [Ha Hx]%orb_false_iff. rewrite Ha. by rewrite (IH Hx).
Qed.

Lemma split_all_app c x rest :
  contains_char c x = false →
  split_all c (x +:+ String c rest) = x :: split_all c rest.
Proof.
  induction x as [|a x IH].
  - intros _. rewrite app_empty_l. simpl. by rewrite bool_decide_true.
  - intros [Ha Hx]%orb_false_iff. rewrite app_String. simpl.
    rewrite Ha. by rewrite (IH Hx).
Qed.

Lemma split_all_join (items : list string) :
  Forall (λ t, contains_char "," t = false) items → items ≠ [] →
  split_all "," (join "," items) = items.
Proof.
  induction 1 as [|x items Hx Hitems IH]; [done|]. intros _.
  destruct items as [|y items]; [by apply split_all_single|].
  change (join "," (x :: y :: items))
    with (x +:+ String "," (join "," (y :: items))).
  rewrite split_all_app by done. f_equal. by apply IH.
Qed.

(** X15: parsing undoes joining: a list of clean TLDs joined with commas,
    as [main] builds the default of [--keyword-tlds], parses back to the
    same list. *)
Theorem parse_keyword_tlds_join (tlds : list string) :
  Forall clean_tld tlds →
  parse_keyword_tlds (join "," tlds) = tlds.
Proof.
  intros Hclean. unfold parse_keyword_tlds.
  destruct (decide (tlds = [])) as [->|Hne]; [done|].
  rewrite split_all_join; [|by eapply Forall_impl; [done|intros ? (?&?&?&?)]|done].
  induction Hclean as [|t tlds (Ht & Hlow & Hstrip & _) _ IH]; [done|].
  rewrite filter_cons_True by (by rewrite Hstrip).
  cbn [fmap list_fmap]. rewrite Hstrip, Hlow. f_equal.
  destruct tlds as [|t' tlds]; [done|]. by apply IH.
Qed.

Lemma parse_keyword_tlds_join_witness :
  parse_keyword_tlds (join "," DEFAULT_KEYWORD_TLDS) = DEFAULT_KEYWORD_TLDS.
Proof.
  apply parse_keyword_tlds_join.
  repeat (constructor; [by split_and!|]). constructor.
Defined.

(** ** Reading the output files back *)

Lemma app_assoc_string s t u : (s +:+ t) +:+ u = s +:+ (t +:+ u).
Proof.
  induction s as [|a s IH]; [done|]. by rewrite !app_String, IH.
Qed.

Lemma newline_app t : newline +:+ t = String "010" t.
Proof. done. Qed.

Lemma splitlines_line l rest :
  no_linebreak l = true →
  splitlines (l +:+ String "010" rest) = l :: splitlines rest.
Proof.
  induction l as [|a l IH].
  - intros _. by rewrite app_empty_l.
  - intros [Ha Hl]%andb_true_iff. apply negb_true_iff in Ha.
    rewrite app_String. cbn [splitlines]. rewrite Ha.
    by rewrite (IH Hl).
Qed.

Lemma splitlines_join (items : list string) :
  Forall (λ s, no_linebreak s = true) items → items ≠ [] →
  splitlines (join newline items +:+ newline) = items.
Proof.
  induction 1 as [|x items Hx Hitems IH]; [done|]. intros _.
  destruct items as [|y items].
  - cbn [join]. unfold newline. by rewrite splitlines_line.
  - change (join newline (x :: y :: items))
      with (x +:+ newline +:+ join newline (y :: items)).
    rewrite !app_assoc_string, newline_app.
    rewrite splitlines_line by done. f_equal. by apply IH.
Qed.

Lemma write_list_read_back_aux p items :
  Forall (λ s, no_linebreak s = true) items → items ≠ [""] →
  ∃ content,
    write_list (Some p) items = [MkdirParents p; WriteText p content] ∧
    splitlines content = items.
Proof.
  intros Hitems Hne. unfold write_list.
  destruct (join newline items) eqn:E.
  - exists "". split; [done|].
    apply (join_empty newline) in E as [->| ->]; done.
  - exists (join newline items +:+ newline). rewrite E. split; [done|].
    rewrite <- E. apply splitlines_join; [done|]. intros ->. done.
Qed.

(** X16: what [write_list] writes, [str.splitlines] reads back: for items
    without line-break characters, other than the sequence holding just the
    empty string, the lines of the written file are the items. *)
Theorem write_list_read_back (p : string) (items : list string) :
  Forall (λ s, no_linebreak s = true) items → items ≠ [""] →
  ∃ content,
    write_list (Some p) items = [MkdirParents p; WriteText p content] ∧
    splitlines content = items.
Proof. apply write_list_read_back_aux. Qed.

Lemma write_list_read_back_witness :
  ∃ content,
    write_list (Some "out.txt") ["a.com"; "b.org"]
    = [MkdirParents "out.txt"; WriteText "out.txt" content] ∧
    splitlines content = ["a.com"; "b.org"].
Proof.
  apply write_list_read_back.
  - repeat constructor.
  - discriminate.
Defined.

Lemma all_chars_lstrip P s : all_chars P s = true → all_chars P (lstrip s) = true.
Proof.
  induction s as [|a s IH]; [done|]. simpl.
  intros [Ha Hs]%andb_true_iff. destruct (is_space a); [by apply IH|].
  simpl. by rewrite Ha, Hs.
Qed.

Lemma all_chars_rstrip P s : all_chars P s = true → all_chars P (rstrip s) = true.
Proof.
  induction s as [|a s IH]; [done|]. simpl.
  intros [Ha Hs]%andb_true_iff. specialize (IH Hs).
  destruct (rstrip s) as [|b r].
  - destruct (is_space a); [done|]. simpl. by rewrite Ha.
  - change (all_chars P (String a (String b r)))
      with (P a && all_chars P (String b r)). by rewrite Ha, IH.
Qed.

Lemma all_chars_strip P s : all_chars P s = true → all_chars P (strip s) = true.
Proof. intros. by apply all_chars_rstrip, all_chars_lstrip. Qed.

Lemma all_chars_drop_last P s :
  all_chars P s = true → all_chars P (drop_last s) = true.
Proof.
  induction s as [|a s IH]; [done|]. destruct s as [|b s]; [done|].
  change (drop_last (String a (String b s)))
    with (String a (drop_last (String b s))).
  change (all_chars P (String a (String b s)))
    with (P a && all_chars P (String b s)).
  intros [Ha Hs]%andb_true_iff. cbn [all_chars]. rewrite Ha. by apply IH.
Qed.

Lemma all_chars_app P s t :
  all_chars P (s +:+ t) = all_chars P s && all_chars P t.
Proof.
  induction s as [|a s IH]; [done|]. rewrite app_String. simpl.
  by rewrite IH, andb_assoc.
Qed.

Lemma is_linebreak_lower_char c : is_linebreak (lower_char c) = is_linebreak c.
Proof. by destruct c as [[] [] [] [] [] [] [] []]. Qed.

Lemma no_linebreak_lower s : no_linebreak (lower s) = no_linebreak s.
Proof.
  unfold no_linebreak. induction s as [|a s IH]; [done|]. simpl.
  by rewrite IH, is_linebreak_lower_char.
Qed.

Lemma no_linebreak_normalize s :
  no_linebreak s = true → no_linebreak (normalize s) = true.
Proof.
  intros Hs. assert (no_linebreak (lower (strip s)) = true) as H.
  { rewrite no_linebreak_lower. by apply all_chars_strip. }
  unfold normalize. destruct (endswith_char _ _); [|done].
  by apply all_chars_drop_last.
Qed.

Lemma splitlines_no_linebreak s :
  Forall (λ l, no_linebreak l = true) (splitlines s).
Proof.
  induction s as [|c r IH]; [constructor|]. cbn [splitlines].
  destruct (is_linebreak c) eqn:Hc.
  - constructor; [done|].
    destruct (decide (c = "013"%char)) as [->|Hcr].
    + destruct r as [|d r']; [done|].
      destruct (decide (d = "010"%char)) as [->|Hd].
      * cbn [splitlines] in IH. cbn in IH. by inversion IH.
      * by destruct d as [[] [] [] [] [] [] [] []].
    + by destruct c as [[] [] [] [] [] [] [] []].
  - destruct (splitlines r) as [|l ls].
    + repeat constructor. unfold no_linebreak. simpl. by rewrite Hc.
    + inversion IH; subst. constructor; [|done].
      unfold no_linebreak in *. simpl. by rewrite Hc.
Qed.

Lemma all_chars_split_first P c s :
  all_chars P s = true →
  all_chars P (split_first c s).1 = true ∧
  all_chars P (split_first c s).2 = true.
Proof.
  induction s as [|a s IH]; [done|]. simpl.
  intros [Ha Hs]%andb_true_iff. case_bool_decide; [done|].
  destruct (IH Hs) as [H1 H2]. destruct (split_first c s) as [pre post].
  simpl in *. by rewrite Ha.
Qed.

Lemma all_chars_split_all P c s :
  all_chars P s = true → Forall (λ p, all_chars P p = true) (split_all c s).
Proof.
  induction s as [|a s IH]; simpl; [by repeat constructor|].
  intros [Ha Hs]%andb_true_iff. specialize (IH Hs).
  case_bool_decide; [by constructor|].
  destruct (split_all c s) as [|p ps].
  - repeat constructor. simpl. by rewrite Ha.
  - inversion IH; subst. constructor; [|done]. simpl. by rewrite Ha.
Qed.

Lemma parse_line_no_linebreak raw k v :
  no_linebreak raw = true → parse_line raw = Some (k, v) →
  no_linebreak v = true.
Proof.
  intros Hraw. assert (no_linebreak (strip raw) = true) as Hline
    by by apply all_chars_strip.
  unfold parse_line. destruct (_ || _); [done|].
  destruct (contains_char _ _).
  - destruct (all_chars_split_first _ "," _ Hline) as [_ H2].
    destruct (split_first _ _) as [prefix value]. cbn [snd] in H2.
    apply (all_chars_strip _ value) in H2.
    repeat case_bool_decide; cbn; by intros [= <- <-].
  - by intros [= <- <-].
Qed.

Lemma parse_keyword_tlds_no_linebreak s :
  no_linebreak s = true →
  Forall (λ t, no_linebreak t = true) (parse_keyword_tlds s).
Proof.
  intros Hs. unfold parse_keyword_tlds. apply Forall_fmap, Forall_forall.
  intros p [_ Hp]%list_elem_of_filter. cbn.
  rewrite no_linebreak_lower. apply all_chars_strip.
  by apply (proj1 (Forall_forall _ _) (all_chars_split_all _ "," s Hs)).
Qed.

Lemma domain_candidates_no_linebreak tlds raw d :
  Forall (λ t, no_linebreak t = true) tlds → no_linebreak raw = true →
  d ∈ domain_candidates tlds raw → no_linebreak d = true.
Proof.
  intros Htlds Hraw. unfold domain_candidates.
  destruct (parse_line raw) as [[k v]|] eqn:Hp; [|by intros ?%elem_of_nil].
  pose proof (parse_line_no_linebreak _ _ _ Hraw Hp) as Hv.
  apply no_linebreak_normalize in Hv.
  destruct k; try by intros ?%elem_of_nil.
  - by intros ->%list_elem_of_singleton.
  - unfold expand_keyword. destruct (is_empty _); [by intros ?%elem_of_nil|].
    destruct (contains_char _ _); [by intros ->%list_elem_of_singleton|].
    intros (tld & -> & Htld)%list_elem_of_fmap.
    unfold no_linebreak in *. rewrite !all_chars_app, Hv.
    by rewrite (proj1 (Forall_forall _ _) Htlds tld Htld).
Qed.

Lemma unsupported_candidates_no_linebreak raw d :
  no_linebreak raw = true →
  d ∈ unsupported_candidates raw → no_linebreak d = true.
Proof.
  intros Hraw. unfold unsupported_candidates.
  destruct (parse_line raw) as [[k v]|] eqn:Hp; [|by intros ?%elem_of_nil].
  pose proof (parse_line_no_linebreak _ _ _ Hraw Hp) as Hv.
  apply no_linebreak_normalize in Hv.
  destruct k; try by intros ?%elem_of_nil.
  - by intros ->%list_elem_of_singleton.
  - by intros ->%list_elem_of_singleton.
Qed.

Lemma final_state_lines args fs file raw :
  file ∈ (λ p, splitlines (read_text fs p))
           <$> sorted (glob_list fs (input_dir args)) →
  raw ∈ file → no_linebreak raw = true.
Proof.
  intros (p & -> & _)%list_elem_of_fmap Hraw.
  by apply (proj1 (Forall_forall _ _)
              (splitlines_no_linebreak (read_text fs p))).
Qed.

(** X17: both outputs of a run survive a round trip through their files:
    the lines of what [write_list] writes for the unsupported output are
    that output again, and so for the domains output when the
    [--keyword-tlds] value holds no line-break character. *)
Theorem output_files_read_back (args : Args) (fs : FileSystem) (p : string) :
  let st := final_state args fs in
  (∃ content,
     write_list (Some p) (unsupported st)
     = [MkdirParents p; WriteText p content] ∧
     splitlines content = unsupported st) ∧
  (no_linebreak (keyword_tlds args) = true →
   ∃ content,
     write_list (Some p) (domains st)
     = [MkdirParents p; WriteText p content] ∧
     splitlines content = domains st).
Proof.
  intros st. subst st. unfold final_state. split.
  - apply write_list_read_back_aux.
    + apply Forall_forall. intros d.
      rewrite unsupported_aggregate, elem_of_first_occurrences,
        list_elem_of_filter, elem_of_aggregate_lines.
      intros (_ & file & raw & Hfile & Hraw & Hd).
      eapply unsupported_candidates_no_linebreak; [|done].
      by eapply final_state_lines.
    + intros E. assert ("" ∈ [""]) as Hin by apply list_elem_of_here.
      rewrite <- E, unsupported_aggregate, elem_of_first_occurrences,
        list_elem_of_filter in Hin. tauto.
  - intros Htlds. apply write_list_read_back_aux.
    + apply Forall_forall. intros d.
      rewrite domains_aggregate, elem_of_first_occurrences,
        list_elem_of_filter, elem_of_aggregate_lines.
      intros (_ & file & raw & Hfile & Hraw & Hd).
      eapply domain_candidates_no_linebreak; [..|done].
      * by apply parse_keyword_tlds_no_linebreak.
      * by eapply final_state_lines.
    + intros E. assert ("" ∈ [""]) as Hin by apply list_elem_of_here.
      rewrite <- E, domains_aggregate, elem_of_first_occurrences,
        list_elem_of_filter in Hin. tauto.
Qed.

Lemma output_files_read_back_witness :
  ∃ content,
    write_list (Some "generated/routes.txt")
      (domains (final_state scenario_args scenario_fs))
    = [MkdirParents "generated/routes.txt";
       WriteText "generated/routes.txt" content] ∧
    splitlines content = domains (final_state scenario_args scenario_fs).
Proof.
  pose proof (output_files_read_back scenario_args scenario_fs
                "generated/routes.txt") as H.
  cbv zeta in H. destruct H as [_ H]. apply H. reflexivity.
Defined.

(** ** What [main] touches *)

(** X18: [main] creates directories and writes files only for its two
    configured paths: every such event names the output file, or the
    unsupported file when that one is not switched off. *)
Theorem main_touches_configured_paths (args : Args) (fs : FileSystem)
    (e : event) :
  e ∈ (main args fs).2 →
  match e with
  | PrintErr _ => True
  | MkdirParents p | WriteText p _ =>
      p = output_file args ∨
      (p = unsupported_file args ∧ unsupported_file args ≠ "")
  end.
Proof.
  unfold main. cbv zeta.
  destruct (path_exists fs (input_dir args)); cbn [negb];
    [|by intros ->%list_elem_of_singleton].
  case_bool_decide; [by intros ->%list_elem_of_singleton|].
  unfold write_list.
  destruct (unsupported_file args) as [|a u] eqn:Hu; cbn [is_empty];
    destruct (_ && _); cbn [app snd]; intros He;
    repeat (apply elem_of_cons in He as [->|He]);
    try (by apply elem_of_nil in He); try done; try (by left);
    right; by split.
Qed.

Lemma main_touches_configured_paths_witness :
  "generated/unsupported.txt" = output_file strict_args ∨
  ("generated/unsupported.txt" = unsupported_file strict_args ∧
   unsupported_file strict_args ≠ "").
Proof.
  apply (main_touches_configured_paths strict_args scenario_fs
           (MkdirParents "generated/unsupported.txt")).
  apply (list_elem_of_lookup_2 _ 2). vm_compute. reflexivity.
Defined.

(** X19: strict mode changes nothing but the verdict: with the other
    arguments fixed, the strict run either equals the lax run, or the lax run
    returns 0 and the strict run returns 1 after the very same events and one
    more message on the error stream. *)
Theorem strict_only_adds_failure (dir out uns tlds : string)
    (fs : FileSystem) :
  let lax := main (Build_Args dir out uns false tlds) fs in
  let str := main (Build_Args dir out uns true tlds) fs in
  str = lax ∨
  (lax.1 = 0%Z ∧ str.1 = 1%Z ∧ ∃ m, str.2 = lax.2 ++ [PrintErr m]).
Proof.
  intros lax str. subst lax str. unfold main. cbv zeta.
  cbn [input_dir output_file unsupported_file strict keyword_tlds].
  destruct (path_exists fs dir); cbn [negb]; [|by left].
  case_bool_decide; [by left|].
  rewrite andb_true_r, andb_false_r.
  case_bool_decide; cbn [negb fst snd]; [by left|]. right.
  split_and!; [done..|]. eexists. by rewrite app_assoc.
Qed.

(** ** The order of the directory listing *)

Lemma leb_false_le x y : String.leb x y = false → String.le y x.
Proof.
  intros E. unfold String.le.
  destruct (String.leb_total x y) as [H|H]; [congruence | by rewrite H].
Qed.

Lemma insert_sorted_Sorted x l :
  Sorted String.le l → Sorted String.le (insert_sorted x l).
Proof.
  induction 1 as [|y l Hl IH Hhd]; simpl; [by repeat constructor|].
  destruct (String.leb x y) eqn:E.
  - constructor; [by constructor|]. constructor.
    unfold String.le. by rewrite E.
  - constructor; [done|]. apply leb_false_le in E.
    destruct l as [|z l]; simpl; [by constructor|].
    destruct (String.leb x z); constructor; [done|]. by inversion Hhd.
Qed.

Lemma sorted_Sorted l : Sorted String.le (sorted l).
Proof.
  induction l as [|x l IH]; simpl; [constructor|].
  by apply insert_sorted_Sorted.
Qed.

Lemma sorted_Permutation_eq l l' : l ≡ₚ l' → sorted l = sorted l'.
Proof.
  intros Hp. apply (Sorted_unique String.le); [apply sorted_Sorted..|].
  by rewrite !sorted_Permutation.
Qed.

(** X20: the order in which the directory lists its files does not matter:
    two file systems that agree on the existence of the input directory and
    on the text of every listed file, and list the same files in any order,
    give the same exit code and the same events. *)
Theorem main_independent_of_listing_order (args : Args)
    (fs fs' : FileSystem) :
  path_exists fs (input_dir args) = path_exists fs' (input_dir args) →
  glob_list fs (input_dir args) ≡ₚ glob_list fs' (input_dir args) →
  (∀ p, p ∈ glob_list fs (input_dir args) →
        read_text fs p = read_text fs' p) →
  main args fs = main args fs'.
Proof.
  intros Hex Hperm Hread. unfold main. cbv zeta.
  rewrite <- Hex, <- (sorted_Permutation_eq _ _ Hperm).
  assert ((λ p, splitlines (read_text fs p))
            <$> sorted (glob_list fs (input_dir args))
          = (λ p, splitlines (read_text fs' p))
            <$> sorted (glob_list fs (input_dir args))) as ->; [|done].
  apply Forall_fmap_ext_1, Forall_forall. intros p Hp.
  rewrite sorted_Permutation in Hp. by rewrite (Hread p Hp).
Qed.

Lemma main_independent_of_listing_order_witness :
  main scenario_args (two_files_fs ["litsts/b.list"; "litsts/a.list"])
  = main scenario_args (two_files_fs ["litsts/a.list"; "litsts/b.list"]).
Proof.
  apply main_independent_of_listing_order.
  - reflexivity.
  - apply Permutation_swap.
  - reflexivity.
Defined.

(** ** Repeated input *)

Lemma filter_none (P : string → Prop) `{!∀ x, Decision (P x)}
    (l : list string) :
  (∀ x, x ∈ l → ¬ P x) → filter P l = [].
Proof.
  induction l as [|x l IH]; intros Hnone; [done|].
  rewrite filter_cons_False by (apply Hnone, list_elem_of_here).
  apply IH. intros y Hy. by apply Hnone, list_elem_of_further.
Qed.

Lemma foldl_push_known acc ds :
  mirrors acc → (∀ d, d ∈ ds → d = "" ∨ d ∈ acc.1) →
  (foldl push acc ds).1 = acc.1.
Proof.
  intros Hm Hds. destruct (foldl_push ds acc Hm) as [_ ->].
  rewrite filter_none; [apply app_nil_r|].
  intros d. rewrite elem_of_first_occurrences, list_elem_of_filter.
  intros [Hne Hd] Hnew. destruct (Hds d Hd); done.
Qed.

(** X21: input seen before adds nothing: lines that only offer strings
    already in an output (or empty ones) leave that output as it is; so
    listing the same files twice gives the outputs of listing them once. *)
Theorem repeated_input_adds_nothing (tlds : list string)
    (files more : list (list string)) :
  ((∀ d, d ∈ mjoin more ≫= domain_candidates tlds →
         d = "" ∨ d ∈ domains (aggregate tlds files)) →
   domains (aggregate tlds (files ++ more))
   = domains (aggregate tlds files)) ∧
  ((∀ d, d ∈ mjoin more ≫= unsupported_candidates →
         d = "" ∨ d ∈ unsupported (aggregate tlds files)) →
   unsupported (aggregate tlds (files ++ more))
   = unsupported (aggregate tlds files)) ∧
  domains (aggregate tlds (files ++ files))
  = domains (aggregate tlds files) ∧
  unsupported (aggregate tlds (files ++ files))
  = unsupported (aggregate tlds files).
Proof.
  assert (∀ more',
    (∀ d, d ∈ mjoin more' ≫= domain_candidates tlds →
          d = "" ∨ d ∈ domains (aggregate tlds files)) →
    domains (aggregate tlds (files ++ more'))
    = domains (aggregate tlds files)) as Hdom.
  { intros more' H. unfold aggregate at 1.
    rewrite foldl_app, aggregate_flat. fold (aggregate tlds files).
    change (domains ?st) with (domain_part st).1.
    rewrite domain_part_lines. apply foldl_push_known; [|done].
    intros x. apply seen_aggregate. }
  assert (∀ more',
    (∀ d, d ∈ mjoin more' ≫= unsupported_candidates →
          d = "" ∨ d ∈ unsupported (aggregate tlds files)) →
    unsupported (aggregate tlds (files ++ more'))
    = unsupported (aggregate tlds files)) as Hun.
  { intros more' H. unfold aggregate at 1.
    rewrite foldl_app, aggregate_flat. fold (aggregate tlds files).
    change (unsupported ?st) with (unsupported_part st).1.
    rewrite (unsupported_part_lines tlds). apply foldl_push_known; [|done].
    intros x. apply unsupported_seen_aggregate. }
  split_and!; [apply Hdom | apply Hun | |].
  - apply Hdom. intros d Hd. destruct (decide (d = "")); [by left|right].
    rewrite domains_aggregate, elem_of_first_occurrences,
      list_elem_of_filter. by split.
  - apply Hun. intros d Hd. destruct (decide (d = "")); [by left|right].
    rewrite unsupported_aggregate, elem_of_first_occurrences,
      list_elem_of_filter. by split.
Qed.

Lemma repeated_input_adds_nothing_witness :
  domains (aggregate ["com"; "net"]
             ([scenario_lines] ++ [["EXAMPLE.com."; "DOMAIN-KEYWORD,Test"]]))
  = domains (aggregate ["com"; "net"] [scenario_lines]).
Proof.
  destruct (repeated_input_adds_nothing ["com"; "net"] [scenario_lines]
              [["EXAMPLE.com."; "DOMAIN-KEYWORD,Test"]]) as (H & _).
  apply H. intros d Hd. right. vm_compute in Hd.
  repeat (apply elem_of_cons in Hd as [->|Hd];
          [vm_compute;
           first [ apply list_elem_of_here
                 | apply list_elem_of_further, list_elem_of_further,
                     list_elem_of_here
                 | apply list_elem_of_further, list_elem_of_further,
                     list_elem_of_further, list_elem_of_here ]|]).
  by apply elem_of_nil in Hd.
Defined.
